(** * Ecole Directe data update coordinator

    A shallow embedding of [custom_components/ecole_directe/coordinator.py]:
    the refresh operation [_async_update_data], the snapshot differ
    [compare_data] and the notifier [trigger_event], followed by the
    properties of the update/compare cycle.

    The coordinator is stateful and effectful: it owns the attribute
    [self.data], it calls the remote service through the platform's
    executor, it writes log records and it fires events on the platform's
    bus.  All of this is threaded through a small state-and-exception monad
    whose state is the attribute together with the chronological trace of
    the effects performed so far. *)

From Stdlib Require Import ZArith Ascii DecimalString.
From stdpp Require Import gmap strings list fin_maps.

Open Scope Z_scope.

(** ** Python exceptions and fallible computations *)

Inductive exn : Type :=
| TypeError (msg : string)
| KeyError (key : string)
| OtherError (msg : string).

Inductive Exc (A : Type) : Type :=
| Ok (a : A)
| Raise (ex : exn).
Arguments Ok {A} a.
Arguments Raise {A} ex.

#[global] Instance Exc_ret : MRet Exc := fun A a => Ok a.
#[global] Instance Exc_bind : MBind Exc := fun A B f m =>
  match m with
  | Ok a => f a
  | Raise ex => Raise ex
  end.

(** The characters of a string, used to reason on the keys of the
    snapshot. *)
Fixpoint chars (s : string) : list ascii :=
  match s with
  | EmptyString => []
  | String a s' => a :: chars s'
  end.

(** [str(n)] on a Python [int]. *)
Definition str (n : Z) : string := NilZero.string_of_int (Z.to_int n).

(** The academic-year label computed at lines 71-75 of the source. *)
Definition year_data (current_year : Z) : string :=
  if (current_year mod 2) =? 0
  then str (current_year - 1) +:+ "-" +:+ str current_year
  else str current_year +:+ "-" +:+ str (current_year + 1).

(** The fixed timetable window, lines 78-79. *)
Definition edt_date_start : string := "2024-05-02".
Definition edt_date_end : string := "2024-05-03".

(** The comparison keys and the event tag of the grades category,
    lines 118-119. *)
Definition grade_compare_keys : list string := ["date"; "subject"; "grade_out_of"].
Definition grade_event_type : string := "new_grade".

(** ** Data model and effects *)

Section Data.

(** The collaborators' data: the session token, the pupil objects
    ([EDEleve]), the records returned by the remote service, the values of
    a formatted record and the configuration entry data. *)
Context {Token EDEleve Item Value ConfigData : Type}.

(** The session object: the coordinator reads [session.token] and
    [session.eleves]. *)
Record Session : Type := { token : Token; eleves : list EDEleve }.

(** A value of the snapshot dictionary [self.data]: the session under the
    key ["session"], a sequence of records under every other key. *)
Inductive SVal : Type :=
| VSession (s : Session)
| VItems (items : list Item).

(** Calls handed to [hass.async_add_executor_job], with their arguments. *)
Inductive Job : Type :=
| JobSession (entry : ConfigData) (dir : string)
| JobHomeworks (tok : Token) (eleve : EDEleve) (dir : string)
| JobGrades (tok : Token) (eleve : EDEleve) (year : string) (dir : string)
| JobLessons (tok : Token) (eleve : EDEleve) (date_start date_end : string).

(** The payload built by [trigger_event]. *)
Record Event : Type :=
  { child_name : string; event_type : string; event_data : gmap string Value }.

(** Arguments of a log record. *)
Inductive LogArg : Type :=
| ArgSelf
| ArgData (d : option (gmap string SVal))
| ArgKey (k : string)
| ArgExn (ex : exn).

Inductive Effect : Type :=
| ExecutorJob (j : Job)
| LogError (msg : string)
| LogWarning (msg : string) (args : list LogArg)
| BusFire (name : string) (ev : Event).

(** The coordinator attribute [self.data] ([None] before the first
    refresh) and the trace of effects, oldest first. *)
Record State : Type :=
  { self_data : option (gmap string SVal); trace : list Effect }.

(** The state-and-exception monad. *)
Definition M (A : Type) : Type := State -> Exc A * State.

#[global] Instance M_ret : MRet M := fun A a st => (Ok a, st).
#[global] Instance M_bind : MBind M := fun A B f m st =>
  match m st with
  | (Ok a, st') => f a st'
  | (Raise ex, st') => (Raise ex, st')
  end.

Definition raise {A} (ex : exn) : M A := fun st => (Raise ex, st).

Definition lift {A} (r : Exc A) : M A := fun st => (r, st).

(** [try: body except Exception as ex: handler]. *)
Definition try_except {A} (body : M A) (handler : exn -> M A) : M A :=
  fun st =>
    match body st with
    | (Ok a, st') => (Ok a, st')
    | (Raise ex, st') => handler ex st'
    end.

Definition get_data : M (option (gmap string SVal)) :=
  fun st => (Ok (self_data st), st).

Definition set_data (d : option (gmap string SVal)) : M unit :=
  fun st => (Ok tt, {| self_data := d; trace := trace st |}).

Definition emit (e : Effect) : M unit :=
  fun st => (Ok tt, {| self_data := self_data st; trace := trace st ++ [e] |}).

(** [self.data[key] = v]. *)
Definition setitem (key : string) (v : SVal) : M unit :=
  d ← get_data;
  match d with
  | Some d => set_data (Some (<[key := v]> d))
  | None => raise (TypeError "'NoneType' object does not support item assignment")
  end.

(** [await self.hass.async_add_executor_job(f, *args)]: the job is handed
    to the executor and its outcome (a value or an exception) comes back
    to the coordinator. *)
Definition async_add_executor_job {A} (j : Job) (outcome : Exc A) : M A :=
  emit (ExecutorJob j);; lift outcome.

(** [for x in l: body x]. *)
Fixpoint for_each {A} (l : list A) (body : A -> M unit) : M unit :=
  match l with
  | [] => mret tt
  | x :: l' => body x;; for_each l' body
  end.

(** A computation is framed when the effects already in the trace play no
    part in what it does: it only appends to them. *)
Definition fresh (st : State) : State :=
  {| self_data := self_data st; trace := [] |}.

Definition framed {A} (m : M A) : Prop :=
  ∀ st, m st = (fst (m (fresh st)),
                {| self_data := self_data (snd (m (fresh st)));
                   trace := trace st ++ trace (snd (m (fresh st))) |}).

(** A computation that leaves [self.data] as it found it. *)
Definition keeps_data {A} (m : M A) : Prop :=
  ∀ st, self_data (snd (m st)) = self_data st.

(** [d[key]] on a formatted record. *)
Definition getitem (d : gmap string Value) (key : string) : Exc Value :=
  match d !! key with
  | Some v => Ok v
  | None => Raise (KeyError key)
  end.

(** Iterating over a snapshot value: only sequences are iterable. *)
Definition iter (v : SVal) : Exc (list Item) :=
  match v with
  | VItems items => Ok items
  | VSession _ => Raise (TypeError "object is not iterable")
  end.

End Data.

Arguments Session : clear implicits.
Arguments SVal : clear implicits.
Arguments Job : clear implicits.
Arguments Event : clear implicits.
Arguments LogArg : clear implicits.
Arguments Effect : clear implicits.
Arguments State : clear implicits.

(** ** The collaborators

    Everything the coordinator module imports or receives from the
    platform: the accessors of [EDEleve], the constant [EVENT_TYPE], the
    configuration entry and directory, the remote calls of the helper
    module (each yields a value or raises) and the formatter of grade
    records. *)
Class Collaborators (Token EDEleve Item Value ConfigData : Type) : Type := {
  get_fullname : EDEleve -> string;
  get_fullname_lower : EDEleve -> string;
  modules : EDEleve -> list string;
  EVENT_TYPE : string;
  entry_data : ConfigData;
  config_dir : string;
  get_ecoledirecte_session :
    ConfigData -> string -> Exc (option (Session Token EDEleve));
  get_homeworks : Token -> EDEleve -> string -> Exc (list Item);
  get_grades : Token -> EDEleve -> string -> string -> Exc (list Item);
  get_lessons : Token -> EDEleve -> string -> string -> Exc (list Item);
  format_grade : Item -> Exc (gmap string Value)
}.

(** ** The coordinator *)

Section Coordinator.

Context {Token EDEleve Item Value ConfigData : Type}.
Context `{EqDecision Value}.
Context {env : Collaborators Token EDEleve Item Value ConfigData}.

Abbreviation Snapshot := (gmap string (SVal Token EDEleve Item)).
Abbreviation Effect' := (Effect Token EDEleve Item Value ConfigData).
Abbreviation State' := (State Token EDEleve Item Value ConfigData).
Abbreviation M' := (@M Token EDEleve Item Value ConfigData).

(** The notifier, lines 218-226. *)
Definition trigger_event (event_type : string) (eleve : EDEleve)
    (event_data : gmap string Value) : M' unit :=
  let event_data :=
    {| child_name := get_fullname eleve;
       event_type := event_type;
       event_data := event_data |} in
  emit (BusFire EVENT_TYPE event_data).

(** [{key: format_func(x)[key] for key in compare_keys}]: the formatter is
    called once per key, and a later occurrence of a key overwrites an
    earlier one. *)
Fixpoint project_from (format_func : Item -> Exc (gmap string Value))
    (x : Item) (compare_keys : list string) (acc : gmap string Value)
    : Exc (gmap string Value) :=
  match compare_keys with
  | [] => Ok acc
  | key :: keys =>
      f ← format_func x;
      v ← getitem f key;
      project_from format_func x keys (<[key := v]> acc)
  end.

Definition project (format_func : Item -> Exc (gmap string Value))
    (x : Item) (compare_keys : list string) : Exc (gmap string Value) :=
  project_from format_func x compare_keys ∅.

(** The test of lines 200-202: the projection of [previous_item] is built
    first, then that of [item], then the two dictionaries are compared. *)
Definition same_item (format_func : Item -> Exc (gmap string Value))
    (compare_keys : list string) (previous_item item : Item) : Exc bool :=
  a ← project format_func previous_item compare_keys;
  b ← project format_func item compare_keys;
  Ok (bool_decide (a = b)).

(** The inner loop, lines 199-204: the result is the final value of
    [found]. *)
Fixpoint find_previous (format_func : Item -> Exc (gmap string Value))
    (compare_keys : list string) (item : Item) (previous_items : list Item)
    : Exc bool :=
  match previous_items with
  | [] => Ok false
  | previous_item :: rest =>
      same ← same_item format_func compare_keys previous_item item;
      if (same : bool) then Ok true
      else find_previous format_func compare_keys item rest
  end.

(** The outer loop, lines 197-206, threading [not_found_items]. *)
Fixpoint scan (format_func : Item -> Exc (gmap string Value))
    (compare_keys : list string) (previous : SVal Token EDEleve Item)
    (items : list Item) (not_found_items : list Item) : Exc (list Item) :=
  match items with
  | [] => Ok not_found_items
  | item :: rest =>
      previous_items ← iter previous;
      found ← find_previous format_func compare_keys item previous_items;
      scan format_func compare_keys previous rest
        (if (found : bool) then not_found_items else not_found_items ++ [item])
  end.

(** The body of the [try] block of the differ, lines 191-208. *)
Definition compare_data_body (previous_data : option Snapshot)
    (data_key : string) (compare_keys : list string) (event_type : string)
    (eleve : EDEleve) (format_func : Item -> Exc (gmap string Value))
    : M' unit :=
  match previous_data with
  | None => mret tt
  | Some previous =>
      match previous !! data_key with
      | None => mret tt
      | Some previous_value =>
          (d ← get_data;
           match d with
           | None => raise (TypeError "argument of type 'NoneType' is not iterable")
           | Some d =>
               match d !! data_key with
               | None => mret tt
               | Some current_value =>
                   (items ← lift (iter current_value);
                    not_found_items ←
                      lift (scan format_func compare_keys previous_value items []);
                    for_each not_found_items (fun not_found_item =>
                      event_data ← lift (format_func not_found_item);
                      trigger_event event_type eleve event_data)) : M' unit
               end
           end) : M' unit
      end
  end.

(** The differ, lines 179-216. *)
Definition compare_data (previous_data : option Snapshot)
    (data_key : string) (compare_keys : list string) (event_type : string)
    (eleve : EDEleve) (format_func : Item -> Exc (gmap string Value))
    : M' unit :=
  try_except
    (compare_data_body previous_data data_key compare_keys event_type eleve
       format_func)
    (fun ex =>
       emit (LogWarning
               "Error comparing data: self[%s] previous_data[%s] data_key[%s] ex[%s]"
               [ArgSelf; ArgData previous_data; ArgKey data_key; ArgExn ex])).

(** [tag in eleve.modules]. *)
Definition has_module (tag : string) (eleve : EDEleve) : bool :=
  bool_decide (tag ∈ modules eleve).

(** Lines 93-103. *)
Definition fetch_homework (session : Session Token EDEleve) (eleve : EDEleve)
    : M' unit :=
  if has_module "CAHIER_DE_TEXTES" eleve then
    try_except
      (r ← async_add_executor_job
             (JobHomeworks (token session) eleve config_dir)
             (get_homeworks (token session) eleve config_dir);
       setitem (get_fullname_lower eleve +:+ "_homework") (VItems r))
      (fun ex =>
         emit (LogWarning "Error getting homeworks from ecole directe: %s"
                 [ArgExn ex]))
  else mret tt.

(** Lines 104-124: the differ is called inside the same [try] as the
    fetch, right after the grades are stored. *)
Definition fetch_grades (previous_data : option Snapshot) (year : string)
    (session : Session Token EDEleve) (eleve : EDEleve) : M' unit :=
  if has_module "NOTES" eleve then
    try_except
      (r ← async_add_executor_job
             (JobGrades (token session) eleve year config_dir)
             (get_grades (token session) eleve year config_dir);
       setitem (get_fullname_lower eleve +:+ "_grades") (VItems r);;
       compare_data previous_data (get_fullname_lower eleve +:+ "_grades")
         grade_compare_keys grade_event_type eleve format_grade)
      (fun ex =>
         emit (LogWarning "Error getting grades from ecole directe: %s"
                 [ArgExn ex]))
  else mret tt.

(** Lines 126-135. *)
Definition fetch_lessons (session : Session Token EDEleve) (eleve : EDEleve)
    : M' unit :=
  if has_module "EDT" eleve then
    try_except
      (r ← async_add_executor_job
             (JobLessons (token session) eleve edt_date_start edt_date_end)
             (get_lessons (token session) eleve edt_date_start edt_date_end);
       setitem (get_fullname_lower eleve +:+ "_lessons") (VItems r))
      (fun ex =>
         emit (LogWarning "Error getting Lessons  from ecole directe: %s"
                 [ArgExn ex]))
  else mret tt.

(** The body of the loop over [session.eleves], lines 93-135. *)
Definition update_eleve (previous_data : option Snapshot) (year : string)
    (session : Session Token EDEleve) (eleve : EDEleve) : M' unit :=
  fetch_homework session eleve;;
  fetch_grades previous_data year session eleve;;
  fetch_lessons session eleve.

(** The refresh operation, lines 53-177.  [current_year] is
    [datetime.datetime.now().year]; the result is the returned value,
    [None] standing for Python's [None]. *)
Definition _async_update_data (current_year : Z) : M' (option Snapshot) :=
  previous_data ← get_data;
  session ← async_add_executor_job
              (JobSession entry_data config_dir)
              (get_ecoledirecte_session entry_data config_dir);
  match session with
  | None =>
      emit (LogError "Unable to init ecole directe client");;
      mret None
  | Some session =>
      (set_data (Some ∅);;
       setitem "session" (VSession session);;
       for_each (eleves session)
         (update_eleve previous_data (year_data current_year) session);;
       get_data) : M' (option Snapshot)
  end.

End Coordinator.

(** ** Vocabulary of the specification

    The definitions below do not come from the source: they phrase, in the
    words of the specification, what the properties compare the code
    with. *)

(** The data categories known to the refresh operation. *)
Inductive Category : Type := Homework | Grades | Lessons.

#[global] Instance Category_eq_dec : EqDecision Category.
Proof. solve_decision. Defined.

Definition categories : list Category := [Homework; Grades; Lessons].

(** The module tag that enables a category. *)
Definition module_tag (c : Category) : string :=
  match c with
  | Homework => "CAHIER_DE_TEXTES"
  | Grades => "NOTES"
  | Lessons => "EDT"
  end.

Definition key_suffix (c : Category) : string :=
  match c with
  | Homework => "_homework"
  | Grades => "_grades"
  | Lessons => "_lessons"
  end.

Definition warning_text (c : Category) : string :=
  match c with
  | Homework => "Error getting homeworks from ecole directe: %s"
  | Grades => "Error getting grades from ecole directe: %s"
  | Lessons => "Error getting Lessons  from ecole directe: %s"
  end.

Section Vocabulary.

Context {Token EDEleve Item Value ConfigData : Type}.
Context `{EqDecision Value}.
Context {env : Collaborators Token EDEleve Item Value ConfigData}.

Abbreviation Snapshot := (gmap string (SVal Token EDEleve Item)).
Abbreviation Effect' := (Effect Token EDEleve Item Value ConfigData).

(** Two records are the same observed item when their formatted values
    agree on every comparison key, field by field. *)
Definition same_fields (fmt : Item -> gmap string Value)
    (compare_keys : list string) (q r : Item) : bool :=
  forallb (fun key => bool_decide (fmt q !! key = fmt r !! key)) compare_keys.

(** The records of the current sub-collection that match no record of the
    previous one, in the order of the current sub-collection. *)
Definition new_records (fmt : Item -> gmap string Value)
    (compare_keys : list string) (previous current : list Item) : list Item :=
  List.filter
    (fun r => negb (existsb (fun q => same_fields fmt compare_keys q r) previous))
    current.

(** The formatter succeeds on a record, with every comparison key among
    the formatted fields. *)
Definition well_formatted (format_func : Item -> Exc (gmap string Value))
    (fmt : Item -> gmap string Value) (compare_keys : list string) (x : Item)
    : Prop :=
  format_func x = Ok (fmt x)
  ∧ Forall (fun key => is_Some (fmt x !! key)) compare_keys.

(** The notification for one formatted record. *)
Definition notification (event_type : string) (eleve : EDEleve)
    (fields : gmap string Value) : Effect' :=
  BusFire EVENT_TYPE
    {| child_name := get_fullname eleve;
       event_type := event_type;
       event_data := fields |}.

(** The effects the differ adds when it runs with [self.data = d]. *)
Definition compare_effects (previous_data : option Snapshot)
    (d : option Snapshot) (data_key : string) (compare_keys : list string)
    (event_type : string) (eleve : EDEleve)
    (format_func : Item -> Exc (gmap string Value)) : list Effect' :=
  trace (snd (compare_data previous_data data_key compare_keys event_type eleve
                format_func {| self_data := d; trace := [] |})).

(** The snapshot key of a category of an entity. *)
Definition category_key (eleve : EDEleve) (c : Category) : string :=
  get_fullname_lower eleve +:+ key_suffix c.

(** The remote call of a category, and its outcome. *)
Definition fetch_job (session : Session Token EDEleve) (year : string)
    (eleve : EDEleve) (c : Category) : Job Token EDEleve ConfigData :=
  match c with
  | Homework => JobHomeworks (token session) eleve config_dir
  | Grades => JobGrades (token session) eleve year config_dir
  | Lessons => JobLessons (token session) eleve edt_date_start edt_date_end
  end.

Definition fetch_outcome (session : Session Token EDEleve) (year : string)
    (eleve : EDEleve) (c : Category) : Exc (list Item) :=
  match c with
  | Homework => get_homeworks (token session) eleve config_dir
  | Grades => get_grades (token session) eleve year config_dir
  | Lessons => get_lessons (token session) eleve edt_date_start edt_date_end
  end.

Definition fetch_warning (c : Category) (ex : exn) : Effect' :=
  LogWarning (warning_text c) [ArgExn ex].

(** The effects of the differ on the grades just fetched for an entity. *)
Definition grade_diff (previous_data : option Snapshot) (eleve : EDEleve)
    (grades : list Item) : list Effect' :=
  compare_effects previous_data
    (Some {[ category_key eleve Grades := VItems grades ]})
    (category_key eleve Grades) grade_compare_keys grade_event_type eleve
    format_grade.

(** What one category of one entity contributes to the trace, given the
    outcome of its own fetch: nothing when the module is not enabled;
    otherwise the remote call, followed by a warning when the call raised,
    or by the effects of the differ when the category is diff-enabled. *)
Definition category_trace (previous_data : option Snapshot) (eleve : EDEleve)
    (c : Category) (job : Job Token EDEleve ConfigData)
    (outcome : Exc (list Item)) : list Effect' :=
  if has_module (module_tag c) eleve then
    ExecutorJob job ::
    match outcome with
    | Raise ex => [fetch_warning c ex]
    | Ok records =>
        match c with
        | Grades => grade_diff previous_data eleve records
        | _ => []
        end
    end
  else [].

(** What one category of one entity contributes to the snapshot. *)
Definition category_store (eleve : EDEleve) (c : Category)
    (outcome : Exc (list Item)) (d : Snapshot) : Snapshot :=
  if has_module (module_tag c) eleve then
    match outcome with
    | Ok records => <[category_key eleve c := VItems records]> d
    | Raise _ => d
    end
  else d.

Definition eleve_trace (previous_data : option Snapshot)
    (session : Session Token EDEleve) (year : string) (eleve : EDEleve)
    : list Effect' :=
  flat_map
    (fun c => category_trace previous_data eleve c
                (fetch_job session year eleve c)
                (fetch_outcome session year eleve c))
    categories.

Definition eleve_store (session : Session Token EDEleve) (year : string)
    (d : Snapshot) (eleve : EDEleve) : Snapshot :=
  fold_left
    (fun d c => category_store eleve c (fetch_outcome session year eleve c) d)
    categories d.

(** The snapshot assembled from the outcomes of the fetches. *)
Definition assemble (session : Session Token EDEleve) (year : string) : Snapshot :=
  fold_left (eleve_store session year) (eleves session)
    {[ "session" := VSession session ]}.

(** The entity a remote call is made for. *)
Definition job_eleve (job : Job Token EDEleve ConfigData) : option EDEleve :=
  match job with
  | JobSession _ _ => None
  | JobHomeworks _ eleve _ => Some eleve
  | JobGrades _ eleve _ _ => Some eleve
  | JobLessons _ eleve _ _ => Some eleve
  end.

(** "The differ for an entity runs only once all the fetches of that
    entity are over", read on a trace: no remote call for the entity comes
    after a notification about it. *)
Definition notifications_follow_fetches (eleve : EDEleve) (t : list Effect')
    : Prop :=
  ∀ (i j : nat) name ev job,
    t !! i = Some (BusFire name ev) ->
    child_name ev = get_fullname eleve ->
    t !! j = Some (ExecutorJob job) ->
    job_eleve job = Some eleve ->
    (j < i)%nat.

(** The warning the differ logs when the comparison raises. *)
Definition comparison_warning (previous_data : option Snapshot)
    (data_key : string) (ex : exn) : Effect' :=
  LogWarning
    "Error comparing data: self[%s] previous_data[%s] data_key[%s] ex[%s]"
    [ArgSelf; ArgData previous_data; ArgKey data_key; ArgExn ex].

(** The remote calls of a trace, in order. *)
Definition jobs_of (t : list Effect') : list (Job Token EDEleve ConfigData) :=
  flat_map (fun eff => match eff with ExecutorJob j => [j] | _ => [] end) t.

(** The remote calls an entity is entitled to, in the order of the loop
    body. *)
Definition enabled_jobs (session : Session Token EDEleve) (year : string)
    (eleve : EDEleve) : list (Job Token EDEleve ConfigData) :=
  flat_map
    (fun c => if has_module (module_tag c) eleve
              then [fetch_job session year eleve c] else [])
    categories.

End Vocabulary.

(** ** A concrete family

    An instance of the collaborators on which the model is evaluated:
    pupils are records, a remote record is the dictionary of its fields
    and the formatter returns it unchanged.  The configuration entry is a
    number that selects what the remote service answers. *)

Record Pupil : Type :=
  { pupil_id : string; pupil_name : string; pupil_modules : list string }.

Definition lower_ascii (a : ascii) : ascii :=
  let n := nat_of_ascii a in
  if ((65 <=? n) && (n <=? 90))%nat then ascii_of_nat (n + 32) else a.

Fixpoint lower (s : string) : string :=
  match s with
  | EmptyString => EmptyString
  | String a s' => String (lower_ascii a) (lower s')
  end.

Definition grade (date subject grade_out_of value : string)
    : gmap string string :=
  <["date" := date]> (<["subject" := subject]>
    (<["grade_out_of" := grade_out_of]> (<["value" := value]> ∅))).

Definition grade1 : gmap string string := grade "2024-01-01" "MATH" "20" "10".
Definition grade2 : gmap string string := grade "2024-01-02" "MATH" "20" "15".

(** The first grade again, with a comment added by the teacher. *)
Definition grade1_commented : gmap string string :=
  <["comment" := "well done"]> grade1.

(** A record without the field [subject]. *)
Definition broken_grade : gmap string string :=
  <["date" := "2024-01-03"]> (<["grade_out_of" := "20"]> ∅).

Definition jane : Pupil :=
  {| pupil_id := "1"; pupil_name := "Jane Doe";
     pupil_modules := ["CAHIER_DE_TEXTES"; "NOTES"; "EDT"] |}.

(** A second pupil with the same full name. *)
Definition jane_bis : Pupil :=
  {| pupil_id := "2"; pupil_name := "Jane Doe"; pupil_modules := ["NOTES"] |}.

Definition john : Pupil :=
  {| pupil_id := "3"; pupil_name := "John Doe"; pupil_modules := ["NOTES"; "EDT"] |}.

Definition family (entry : nat) : option (Session string Pupil) :=
  match entry with
  | O => None
  | 1%nat => Some {| token := "tok"; eleves := [jane; jane_bis] |}
  | 2%nat => Some {| token := "tok"; eleves := [jane; john] |}
  | _ => Some {| token := "tok"; eleves := [john] |}
  end.

(** The grades request fails for the pupil whose id is ["1"]. *)
Definition family_grades (eleve : Pupil) : Exc (list (gmap string string)) :=
  if bool_decide (pupil_id eleve = "1") then Raise (OtherError "HTTP 500")
  else Ok [grade1; grade2].

Definition sample (entry : nat)
  : Collaborators string Pupil (gmap string string) string nat := {|
  get_fullname := pupil_name;
  get_fullname_lower := fun eleve => lower (pupil_name eleve);
  modules := pupil_modules;
  EVENT_TYPE := "ecole_directe_event";
  entry_data := entry;
  config_dir := "/config";
  get_ecoledirecte_session := fun entry _ => Ok (family entry);
  get_homeworks := fun _ _ _ => Ok [];
  get_grades := fun _ eleve _ _ => family_grades eleve;
  get_lessons := fun _ _ _ _ => Ok [];
  format_grade := fun item => Ok item
|}.

(** The same family when the remote service cannot be reached: the
    session request raises. *)
Definition offline
  : Collaborators string Pupil (gmap string string) string nat := {|
  get_fullname := pupil_name;
  get_fullname_lower := fun eleve => lower (pupil_name eleve);
  modules := pupil_modules;
  EVENT_TYPE := "ecole_directe_event";
  entry_data := 3%nat;
  config_dir := "/config";
  get_ecoledirecte_session := fun _ _ => Raise (OtherError "timeout");
  get_homeworks := fun _ _ _ => Ok [];
  get_grades := fun _ eleve _ _ => family_grades eleve;
  get_lessons := fun _ _ _ _ => Ok [];
  format_grade := fun item => Ok item
|}.

(** A formatter that refuses a record without a subject. *)
Definition strict_format (item : gmap string string)
    : Exc (gmap string string) :=
  match item !! "subject" with
  | Some _ => Ok item
  | None => Raise (OtherError "grade without subject")
  end.

(** What a previous refresh stored for John, and a state whose
    [self.data] is that snapshot. *)
Definition john_before : gmap string (SVal string Pupil (gmap string string)) :=
  {[ "john doe_grades" := VItems [grade1] ]}.

Definition after_first_tick : State string Pupil (gmap string string) string nat :=
  {| self_data := Some john_before; trace := [] |}.

(** The state before the first refresh. *)
Definition first_tick : State string Pupil (gmap string string) string nat :=
  {| self_data := None; trace := [] |}.

(** A state in which the grades of John have just been stored. *)
Definition john_stored (grades : list (gmap string string))
    : State string Pupil (gmap string string) string nat :=
  {| self_data := Some {[ "john doe_grades" := VItems grades ]}; trace := [] |}.

(** * Properties *)

(** ** Key strings *)

Lemma chars_app (s t : string) : chars (s +:+ t) = chars s ++ chars t.
Proof.
  induction s as [|a s IH]; [reflexivity|].
  change (String a s +:+ t) with (String a (s +:+ t)).
  simpl. by rewrite IH.
Qed.

Lemma rev_key (s t : string) :
  reverse (chars (s +:+ t)) = reverse (chars t) ++ reverse (chars s).
Proof. by rewrite chars_app, reverse_app. Qed.

Lemma chars_inj (s t : string) : chars s = chars t -> s = t.
Proof.
  revert t. induction s as [|a s IH]; intros [|b t] Heq; simplify_eq/=;
    [reflexivity|]. f_equal. by apply IH.
Qed.

(** A key determines its category and the lower-cased name it was built
    from. *)
Lemma key_suffix_inj (n n' : string) (c c' : Category) :
  n +:+ key_suffix c = n' +:+ key_suffix c' -> n = n' ∧ c = c'.
Proof.
  intros Heq. apply (f_equal (fun s => reverse (chars s))) in Heq.
  rewrite !rev_key in Heq.
  destruct c, c'; vm_compute in Heq; simplify_eq; split; try reflexivity;
    by apply chars_inj, (inj reverse).
Qed.

Lemma key_not_session (n : string) (c : Category) :
  n +:+ key_suffix c ≠ "session".
Proof.
  intros Heq. apply (f_equal (fun s => reverse (chars s))) in Heq.
  rewrite rev_key in Heq.
  destruct c; vm_compute in Heq; discriminate Heq.
Qed.

(** ** The monad *)

Section MonadFacts.

Context {Token EDEleve Item Value ConfigData : Type}.

Abbreviation State' := (State Token EDEleve Item Value ConfigData).
Abbreviation M' := (@M Token EDEleve Item Value ConfigData).

Lemma bind_ok {A B} (m : M' A) (f : A -> M' B) (st st' : State') (a : A) :
  m st = (Ok a, st') -> (m ≫= f) st = f a st'.
Proof. intros Hm. unfold mbind, M_bind. by rewrite Hm. Qed.

Lemma try_ok {A} (m : M' A) (h : exn -> M' A) (st st' : State') (a : A) :
  m st = (Ok a, st') -> try_except m h st = (Ok a, st').
Proof. intros Hm. unfold try_except. by rewrite Hm. Qed.

Lemma bind_get_data {B} (f : _ -> M' B) (st : State') :
  (get_data ≫= f) st = f (self_data st) st.
Proof. reflexivity. Qed.

Lemma bind_lift {A B} (r : Exc A) (f : A -> M' B) (st : State') :
  (lift r ≫= f) st = match r with Ok a => f a st | Raise ex => (Raise ex, st) end.
Proof. by destruct r. Qed.

Lemma bind_bind_lift {A B C} (r : Exc A) (f : A -> M' B) (g : B -> M' C)
    (st : State') :
  ((lift r ≫= f) ≫= g) st
  = match r with Ok a => (f a ≫= g) st | Raise ex => (Raise ex, st) end.
Proof. by destruct r. Qed.

Lemma bind_emit {B} (e : Effect Token EDEleve Item Value ConfigData)
    (f : unit -> M' B) (st : State') :
  (emit e ≫= f) st = f tt {| self_data := self_data st; trace := trace st ++ [e] |}.
Proof. reflexivity. Qed.

Lemma framed_ret {A} (a : A) : framed (mret a : M' A).
Proof. intros [d t]. cbn. by rewrite app_nil_r. Qed.

Lemma framed_raise {A} (ex : exn) : framed (raise ex : M' A).
Proof. intros [d t]. cbn. by rewrite app_nil_r. Qed.

Lemma framed_lift {A} (r : Exc A) : framed (lift r : M' A).
Proof. intros [d t]. cbn. by rewrite app_nil_r. Qed.

Lemma framed_get_data : framed (get_data : M' _).
Proof. intros [d t]. cbn. by rewrite app_nil_r. Qed.

Lemma framed_emit (e : Effect Token EDEleve Item Value ConfigData) :
  framed (emit e).
Proof. intros [d t]. reflexivity. Qed.

Lemma framed_bind {A B} (m : M' A) (f : A -> M' B) :
  framed m -> (∀ a, framed (f a)) -> framed (m ≫= f).
Proof.
  intros Hm Hf st. unfold mbind, M_bind.
  rewrite (Hm st). destruct (m (fresh st)) as [[a|ex] [d1 t1]]; cbn.
  - rewrite (Hf a). rewrite (Hf a {| self_data := d1; trace := t1 |}).
    unfold fresh. cbn. by rewrite app_assoc.
  - reflexivity.
Qed.

Lemma framed_try_except {A} (m : M' A) (h : exn -> M' A) :
  framed m -> (∀ ex, framed (h ex)) -> framed (try_except m h).
Proof.
  intros Hm Hh st. unfold try_except.
  rewrite (Hm st). destruct (m (fresh st)) as [[a|ex] [d1 t1]]; cbn.
  - reflexivity.
  - rewrite (Hh ex). rewrite (Hh ex {| self_data := d1; trace := t1 |}).
    unfold fresh. cbn. by rewrite app_assoc.
Qed.

Lemma framed_for_each {A} (l : list A) (body : A -> M' unit) :
  (∀ x, framed (body x)) -> framed (for_each l body).
Proof.
  intros Hbody. induction l as [|x l IH]; cbn [for_each].
  - apply framed_ret.
  - apply framed_bind; [apply Hbody | intros _; exact IH].
Qed.

Lemma keeps_data_ret {A} (a : A) : keeps_data (mret a : M' A).
Proof. by intros st. Qed.

Lemma keeps_data_raise {A} (ex : exn) : keeps_data (raise ex : M' A).
Proof. by intros st. Qed.

Lemma keeps_data_lift {A} (r : Exc A) : keeps_data (lift r : M' A).
Proof. by intros st. Qed.

Lemma keeps_data_get_data : keeps_data (get_data : M' _).
Proof. by intros st. Qed.

Lemma keeps_data_emit (e : Effect Token EDEleve Item Value ConfigData) :
  keeps_data (emit e).
Proof. by intros st. Qed.

Lemma keeps_data_bind {A B} (m : M' A) (f : A -> M' B) :
  keeps_data m -> (∀ a, keeps_data (f a)) -> keeps_data (m ≫= f).
Proof.
  intros Hm Hf st. unfold mbind, M_bind. specialize (Hm st).
  destruct (m st) as [[a|ex] st1]; cbn in *; [|exact Hm].
  by rewrite (Hf a st1).
Qed.

Lemma keeps_data_try_except {A} (m : M' A) (h : exn -> M' A) :
  keeps_data m -> (∀ ex, keeps_data (h ex)) -> keeps_data (try_except m h).
Proof.
  intros Hm Hh st. unfold try_except. specialize (Hm st).
  destruct (m st) as [[a|ex] st1]; cbn in *; [exact Hm|].
  by rewrite (Hh ex st1).
Qed.

Lemma keeps_data_for_each {A} (l : list A) (body : A -> M' unit) :
  (∀ x, keeps_data (body x)) -> keeps_data (for_each l body).
Proof.
  intros Hbody. induction l as [|x l IH]; cbn [for_each].
  - apply keeps_data_ret.
  - apply keeps_data_bind; [apply Hbody | intros _; exact IH].
Qed.

End MonadFacts.

(** ** The differ *)

Section Differ.

Context {Token EDEleve Item Value ConfigData : Type}.
Context `{EqDecision Value}.
Context {env : Collaborators Token EDEleve Item Value ConfigData}.

Abbreviation Snapshot := (gmap string (SVal Token EDEleve Item)).
Abbreviation Effect' := (Effect Token EDEleve Item Value ConfigData).
Abbreviation State' := (State Token EDEleve Item Value ConfigData).
Abbreviation M' := (@M Token EDEleve Item Value ConfigData).

Implicit Types (format_func : Item -> Exc (gmap string Value)).
Implicit Types (fmt : Item -> gmap string Value).
Implicit Types (compare_keys : list string) (st : State').

(** The projection of a well-formatted record holds exactly the formatted
    values of the comparison keys. *)
Lemma project_from_lookup format_func x f compare_keys acc :
  format_func x = Ok f ->
  (∀ key, key ∈ compare_keys -> is_Some (f !! key)) ->
  ∃ p, project_from format_func x compare_keys acc = Ok p
       ∧ ∀ key, p !! key = if decide (key ∈ compare_keys) then f !! key
                           else acc !! key.
Proof.
  intros Hf. revert acc.
  induction compare_keys as [|k keys IH]; intros acc Hkeys.
  - exists acc. split; [reflexivity|]. intros key.
    case_decide as Hin; [by apply elem_of_nil in Hin | reflexivity].
  - destruct (Hkeys k) as [v Hv]; [left|].
    destruct (IH (<[k := v]> acc)) as (p & Hp & Hlook).
    { intros key Hin. apply Hkeys. by right. }
    exists p. split.
    + simpl. rewrite Hf. simpl. unfold getitem. rewrite Hv. exact Hp.
    + intros key. rewrite Hlook.
      destruct (decide (key ∈ keys)) as [Hin|Hnin].
      * rewrite decide_True; [reflexivity | by right].
      * destruct (decide (key = k)) as [->|Hne].
        -- rewrite decide_True by left. by rewrite lookup_insert_eq.
        -- rewrite decide_False; [by rewrite lookup_insert_ne|].
           intros [?|?]%elem_of_cons; contradiction.
Qed.

Lemma same_fields_spec fmt compare_keys q r :
  same_fields fmt compare_keys q r = true
  <-> ∀ key, key ∈ compare_keys -> fmt q !! key = fmt r !! key.
Proof.
  unfold same_fields. rewrite forallb_forall. split.
  - intros Hall key Hin. apply list_elem_of_In in Hin.
    by apply Hall, bool_decide_eq_true in Hin.
  - intros Hall key Hin. apply bool_decide_eq_true, Hall.
    by apply list_elem_of_In.
Qed.

(** On well-formatted records the test of the differ is the field-by-field
    comparison of the formatted values of the comparison keys. *)
Lemma same_item_spec format_func fmt compare_keys q r :
  well_formatted format_func fmt compare_keys q ->
  well_formatted format_func fmt compare_keys r ->
  same_item format_func compare_keys q r = Ok (same_fields fmt compare_keys q r).
Proof.
  intros [Hq Hqk] [Hr Hrk]. rewrite Forall_forall in Hqk, Hrk.
  unfold same_item, project.
  destruct (project_from_lookup format_func q (fmt q) compare_keys ∅ Hq Hqk)
    as (a & -> & Ha).
  destruct (project_from_lookup format_func r (fmt r) compare_keys ∅ Hr Hrk)
    as (b & -> & Hb).
  simpl. f_equal.
  destruct (same_fields fmt compare_keys q r) eqn:Hsame.
  - apply bool_decide_eq_true. apply map_eq. intros key.
    rewrite Ha, Hb. case_decide as Hin; [|reflexivity].
    by apply (proj1 (same_fields_spec fmt compare_keys q r) Hsame).
  - apply bool_decide_eq_false. intros ->.
    assert (same_fields fmt compare_keys q r = true) as Htrue; [|congruence].
    apply same_fields_spec. intros key Hin.
    specialize (Ha key). specialize (Hb key).
    rewrite decide_True in Ha, Hb by done. congruence.
Qed.

Lemma find_previous_spec format_func fmt compare_keys item previous :
  well_formatted format_func fmt compare_keys item ->
  Forall (well_formatted format_func fmt compare_keys) previous ->
  find_previous format_func compare_keys item previous
  = Ok (existsb (fun q => same_fields fmt compare_keys q item) previous).
Proof.
  intros Hitem. induction 1 as [|q previous Hq _ IH]; [reflexivity|].
  simpl. rewrite (same_item_spec _ fmt) by done. simpl.
  destruct (same_fields fmt compare_keys q item); [reflexivity | exact IH].
Qed.

Lemma scan_spec format_func fmt compare_keys previous items acc :
  Forall (well_formatted format_func fmt compare_keys) previous ->
  Forall (well_formatted format_func fmt compare_keys) items ->
  scan format_func compare_keys (VItems previous : SVal Token EDEleve Item)
    items acc
  = Ok (acc ++ new_records fmt compare_keys previous items).
Proof.
  intros Hprev Hitems. revert acc.
  induction Hitems as [|item items Hitem _ IH]; intros acc.
  - simpl. by rewrite app_nil_r.
  - simpl. rewrite (find_previous_spec _ fmt) by done. simpl.
    rewrite IH.
    destruct (existsb _ previous); simpl; [reflexivity|].
    by rewrite <- app_assoc.
Qed.

(** The emission loop fires one notification per queued record, in the
    order of the queue. *)
Lemma for_each_notify format_func fmt event_type eleve (l : list Item) st :
  Forall (fun x => format_func x = Ok (fmt x)) l ->
  for_each l (fun not_found_item =>
    event_data ← lift (format_func not_found_item);
    trigger_event event_type eleve event_data) st
  = (Ok tt, {| self_data := self_data st;
               trace := trace st
                        ++ map (fun x => notification event_type eleve (fmt x)) l |}).
Proof.
  intros Hl. revert st. induction Hl as [|x l Hx _ IH]; intros st.
  - simpl. rewrite app_nil_r. by destruct st.
  - cbn [for_each]. erewrite bind_ok.
    2:{ erewrite bind_ok; [|unfold lift; by rewrite Hx].
        unfold trigger_event, emit. reflexivity. }
    rewrite IH. cbn [self_data trace map]. by rewrite <- app_assoc.
Qed.

Ltac monad_facts :=
  repeat first
    [ progress intros
    | apply framed_ret | apply framed_raise | apply framed_lift
    | apply framed_get_data | apply framed_emit
    | apply framed_bind | apply framed_try_except | apply framed_for_each
    | apply keeps_data_ret | apply keeps_data_raise | apply keeps_data_lift
    | apply keeps_data_get_data | apply keeps_data_emit
    | apply keeps_data_bind | apply keeps_data_try_except
    | apply keeps_data_for_each
    | match goal with
      | |- context [match ?x with _ => _ end] => destruct x
      end ].

Lemma compare_data_body_framed previous_data data_key compare_keys event_type
    eleve format_func :
  framed (compare_data_body previous_data data_key compare_keys event_type
            eleve format_func).
Proof. unfold compare_data_body, trigger_event. monad_facts. Qed.

Lemma compare_data_body_keeps_data previous_data data_key compare_keys
    event_type eleve format_func :
  keeps_data (compare_data_body previous_data data_key compare_keys event_type
                eleve format_func).
Proof. unfold compare_data_body, trigger_event. monad_facts. Qed.

Lemma compare_data_framed previous_data data_key compare_keys event_type eleve
    format_func :
  framed (compare_data previous_data data_key compare_keys event_type eleve
            format_func).
Proof.
  unfold compare_data. apply framed_try_except;
    [apply compare_data_body_framed | intros ex; apply framed_emit].
Qed.

Lemma compare_data_keeps_data previous_data data_key compare_keys event_type
    eleve format_func :
  keeps_data (compare_data previous_data data_key compare_keys event_type eleve
                format_func).
Proof.
  unfold compare_data. apply keeps_data_try_except;
    [apply compare_data_body_keeps_data | intros ex; apply keeps_data_emit].
Qed.

(** The differ never lets an exception out. *)
Lemma compare_data_returns previous_data data_key compare_keys event_type eleve
    format_func st :
  fst (compare_data previous_data data_key compare_keys event_type eleve
         format_func st) = Ok tt.
Proof.
  unfold compare_data, try_except.
  destruct (compare_data_body _ _ _ _ _ _ st) as [[[]|ex] st']; reflexivity.
Qed.

(** The differ returns normally, leaves [self.data] alone, and appends to
    the trace effects that depend on [self.data] and on its arguments
    only. *)
Lemma compare_data_run previous_data data_key compare_keys event_type eleve
    format_func st :
  compare_data previous_data data_key compare_keys event_type eleve format_func st
  = (Ok tt,
     {| self_data := self_data st;
        trace := trace st
                 ++ compare_effects previous_data (self_data st) data_key
                      compare_keys event_type eleve format_func |}).
Proof.
  pose proof (compare_data_returns previous_data data_key compare_keys
                event_type eleve format_func) as Hret.
  pose proof (compare_data_keeps_data previous_data data_key compare_keys
                event_type eleve format_func) as Hkeep.
  rewrite (compare_data_framed _ _ _ _ _ _ st).
  rewrite Hret, Hkeep. reflexivity.
Qed.

(** The emission loop does not read [self.data]. *)
Lemma emission_loop_trace format_func event_type eleve (l : list Item) st st' :
  trace st = trace st' ->
  let loop := for_each l (fun not_found_item =>
    event_data ← lift (format_func not_found_item);
    trigger_event event_type eleve event_data) in
  fst (loop st) = fst (loop st') ∧ trace (snd (loop st)) = trace (snd (loop st')).
Proof.
  revert st st'. induction l as [|x l IH]; intros st st' Htrace; [by split|].
  cbn [for_each]. rewrite !bind_bind_lift.
  destruct (format_func x) as [f|ex]; [|by split].
  unfold trigger_event. rewrite !bind_emit.
  apply IH. cbn. by rewrite Htrace.
Qed.

(** The differ reads [self.data] at its key only. *)
Lemma compare_effects_lookup previous_data (d d' : Snapshot) data_key
    compare_keys event_type eleve format_func :
  d !! data_key = d' !! data_key ->
  compare_effects previous_data (Some d) data_key compare_keys event_type eleve
    format_func
  = compare_effects previous_data (Some d') data_key compare_keys event_type
      eleve format_func.
Proof.
  intros Hlook. unfold compare_effects, compare_data, try_except,
    compare_data_body.
  destruct previous_data as [previous|]; [|reflexivity].
  destruct (previous !! data_key) as [pv|]; [|reflexivity].
  rewrite !bind_get_data. cbn [self_data].
  rewrite Hlook. destruct (d' !! data_key) as [v|]; [|reflexivity].
  rewrite !bind_lift.
  destruct (iter v) as [items|ex]; [|reflexivity].
  rewrite !bind_lift.
  destruct (scan format_func compare_keys pv items []) as [nf|ex]; [|reflexivity].
  destruct (emission_loop_trace format_func event_type eleve nf
              {| self_data := Some d; trace := [] |}
              {| self_data := Some d'; trace := [] |} eq_refl) as [Hr Ht].
  cbn zeta in Hr, Ht.
  destruct (for_each nf _ {| self_data := Some d; trace := [] |}) as [r1 st1].
  destruct (for_each nf _ {| self_data := Some d'; trace := [] |}) as [r2 st2].
  cbn in Hr, Ht. subst r2. destruct r1 as [[]|ex]; cbn; by rewrite Ht.
Qed.

Lemma new_records_formatted format_func fmt compare_keys (previous current : list Item) :
  Forall (well_formatted format_func fmt compare_keys) current ->
  Forall (fun x => format_func x = Ok (fmt x))
    (new_records fmt compare_keys previous current).
Proof.
  intros Hcur. apply Forall_forall. intros x Hx.
  apply list_elem_of_In, filter_In in Hx as [Hx _].
  apply list_elem_of_In in Hx.
  rewrite Forall_forall in Hcur. by destruct (Hcur x Hx).
Qed.

(** The run of the differ on two well-formatted sub-collections. *)
Lemma compare_data_well_formatted (previous d : Snapshot) data_key compare_keys
    event_type eleve format_func fmt (p c : list Item) st :
  previous !! data_key = Some (VItems p) ->
  self_data st = Some d ->
  d !! data_key = Some (VItems c) ->
  Forall (well_formatted format_func fmt compare_keys) p ->
  Forall (well_formatted format_func fmt compare_keys) c ->
  compare_data (Some previous) data_key compare_keys event_type eleve
    format_func st
  = (Ok tt,
     {| self_data := self_data st;
        trace := trace st
                 ++ map (fun r => notification event_type eleve (fmt r))
                      (new_records fmt compare_keys p c) |}).
Proof.
  intros Hprev Hdata Hcur Hp Hc.
  destruct st as [sd tr]. cbn [self_data trace] in *. subst sd.
  unfold compare_data, compare_data_body. rewrite Hprev.
  apply try_ok. rewrite bind_get_data. cbn [self_data]. rewrite Hcur.
  rewrite bind_lift. cbn [iter]. rewrite bind_lift.
  rewrite (scan_spec format_func fmt) by done. cbn [app].
  apply (for_each_notify format_func fmt).
  by apply new_records_formatted.
Qed.

Lemma same_fields_trans fmt compare_keys (x y z : Item) :
  same_fields fmt compare_keys x y = true ->
  same_fields fmt compare_keys y z = true ->
  same_fields fmt compare_keys x z = true.
Proof.
  rewrite !same_fields_spec. intros Hxy Hyz key Hin.
  by rewrite (Hxy key Hin), (Hyz key Hin).
Qed.

Lemma same_fields_sym fmt compare_keys (x y : Item) :
  same_fields fmt compare_keys x y = true ->
  same_fields fmt compare_keys y x = true.
Proof.
  rewrite !same_fields_spec. intros Hxy key Hin. by rewrite (Hxy key Hin).
Qed.

Lemma filter_filter_implied {A} (P Q : A -> bool) (l : list A) :
  (∀ x, P x = true -> Q x = true) ->
  List.filter P (List.filter Q l) = List.filter P l.
Proof.
  intros HPQ. induction l as [|x l IH]; [reflexivity|]. simpl.
  destruct (Q x) eqn:HQ; simpl.
  - by rewrite IH.
  - destruct (P x) eqn:HP; [|exact IH].
    apply HPQ in HP. congruence.
Qed.

Lemma filter_none {A} (P : A -> bool) (l : list A) :
  Forall (fun x => P x = false) l -> List.filter P l = [].
Proof.
  induction 1 as [|x l Hx _ IH]; [reflexivity|]. simpl. by rewrite Hx.
Qed.

(** C2. On two sub-collections stored under the same category key, the
    differ emits exactly one notification per record of the current
    sub-collection whose formatted values, projected onto the comparison
    keys, match no record of the previous sub-collection, in the order of
    the current sub-collection.  The formatter is assumed to succeed on the
    records and to yield the comparison keys. *)
Theorem compare_data_notifies_new_records (previous d : Snapshot) data_key
    compare_keys event_type eleve format_func fmt (p c : list Item) st :
  previous !! data_key = Some (VItems p) ->
  self_data st = Some d ->
  d !! data_key = Some (VItems c) ->
  Forall (well_formatted format_func fmt compare_keys) p ->
  Forall (well_formatted format_func fmt compare_keys) c ->
  compare_data (Some previous) data_key compare_keys event_type eleve
    format_func st
  = (Ok tt,
     {| self_data := self_data st;
        trace := trace st
                 ++ map (fun r => notification event_type eleve (fmt r))
                      (new_records fmt compare_keys p c) |}).
Proof. apply compare_data_well_formatted. Qed.

(** C5. When the previous snapshot is absent, or the category key is
    missing from the previous snapshot, or it is missing from the current
    snapshot, the differ does nothing: it returns normally and leaves the
    state, hence the trace, as it was. *)
Theorem compare_data_noop (previous_data : option Snapshot) data_key
    compare_keys event_type eleve format_func st :
  previous_data = None
  ∨ (∃ previous, previous_data = Some previous ∧ previous !! data_key = None)
  ∨ (∃ d, self_data st = Some d ∧ d !! data_key = None) ->
  compare_data previous_data data_key compare_keys event_type eleve
    format_func st = (Ok tt, st).
Proof.
  intros Hguard. unfold compare_data, compare_data_body. apply try_ok.
  destruct previous_data as [previous|]; [|reflexivity].
  destruct (previous !! data_key) as [pv|] eqn:Hprev; [|reflexivity].
  destruct Hguard as [Hnone|[(previous' & Hsome & Hmiss)|(d & Hdata & Hmiss)]].
  - discriminate Hnone.
  - simplify_eq.
  - rewrite bind_get_data, Hdata, Hmiss. reflexivity.
Qed.

(** C7. On well-formatted records the differ takes two records for the
    same observed item exactly when the formatted values of the comparison
    keys are equal field by field, and nothing else decides what it does:
    the inner loop finds a current record exactly when some previous
    record agrees with it on those fields; the differ notifies exactly the
    current records that no previous record agrees with on those fields;
    and when the two sub-collections agree on those fields record by
    record, whatever their other fields hold, no notification is
    emitted. *)
Theorem record_identity_on_compare_keys (previous d : Snapshot) data_key
    compare_keys event_type eleve format_func fmt (p c : list Item) st :
  Forall (well_formatted format_func fmt compare_keys) p ->
  Forall (well_formatted format_func fmt compare_keys) c ->
  (∀ q r, q ∈ p -> r ∈ c ->
     ∃ b, same_item format_func compare_keys q r = Ok b
          ∧ (b = true <-> ∀ key, key ∈ compare_keys -> fmt q !! key = fmt r !! key))
  ∧ (∀ r, r ∈ c ->
       ∃ found, find_previous format_func compare_keys r p = Ok found
                ∧ (found = true
                   <-> ∃ q, q ∈ p
                            ∧ ∀ key, key ∈ compare_keys ->
                                     fmt q !! key = fmt r !! key))
  ∧ (previous !! data_key = Some (VItems p) ->
     self_data st = Some d ->
     d !! data_key = Some (VItems c) ->
     ∃ notified,
       compare_data (Some previous) data_key compare_keys event_type eleve
         format_func st
       = (Ok tt,
          {| self_data := self_data st;
             trace := trace st
                      ++ map (fun r => notification event_type eleve (fmt r))
                           notified |})
       ∧ ∀ r, r ∈ notified
              <-> r ∈ c
                  ∧ ¬ ∃ q, q ∈ p
                           ∧ ∀ key, key ∈ compare_keys ->
                                    fmt q !! key = fmt r !! key)
  ∧ (previous !! data_key = Some (VItems p) ->
     self_data st = Some d ->
     d !! data_key = Some (VItems c) ->
     Forall2 (fun q r => ∀ key, key ∈ compare_keys -> fmt q !! key = fmt r !! key)
       p c ->
     compare_data (Some previous) data_key compare_keys event_type eleve
       format_func st = (Ok tt, st)).
Proof.
  intros Hp Hc.
  assert (∀ r, existsb (fun q => same_fields fmt compare_keys q r) p = true
               <-> ∃ q, q ∈ p
                        ∧ ∀ key, key ∈ compare_keys ->
                                 fmt q !! key = fmt r !! key) as Hfound.
  { intros r. rewrite existsb_exists. split; intros (q & Hq & Hqr); exists q.
    - split; [by apply list_elem_of_In | by apply same_fields_spec].
    - split; [by apply list_elem_of_In | by apply same_fields_spec]. }
  split; [|split; [|split]].
  - intros q r Hq Hr. exists (same_fields fmt compare_keys q r). split.
    + rewrite Forall_forall in Hp, Hc. apply same_item_spec; auto.
    + apply same_fields_spec.
  - intros r Hr. eexists. split; [|apply Hfound].
    rewrite Forall_forall in Hc. apply find_previous_spec; auto.
  - intros Hprev Hdata Hcur. exists (new_records fmt compare_keys p c).
    split; [by apply (compare_data_well_formatted previous d)|].
    intros r. unfold new_records.
    rewrite list_elem_of_In, filter_In, <- list_elem_of_In, <- Hfound.
    rewrite negb_true_iff, not_true_iff_false. reflexivity.
  - intros Hprev Hdata Hcur Hsame.
    rewrite (compare_data_well_formatted previous d data_key compare_keys
               event_type eleve format_func fmt p c) by done.
    assert (new_records fmt compare_keys p c = []) as ->.
    { unfold new_records. apply filter_none.
      apply Forall_forall. intros r Hr.
      apply negb_false_iff, existsb_exists.
      apply list_elem_of_lookup in Hr as [i Hi].
      destruct (Forall2_lookup_r _ _ _ _ _ Hsame Hi) as (q & Hq & Hqr).
      exists q. split.
      - apply list_elem_of_In, list_elem_of_lookup. by exists i.
      - by apply same_fields_spec. }
    cbn [map]. rewrite app_nil_r. by destruct st.
Qed.

(** C8. Two runs of the differ in a row on the same previous snapshot and
    the same [self.data] emit the same sequence of effects, and the second
    run starts from the state the first one left: nothing the first run
    did is remembered. *)
Theorem compare_data_twice (previous_data : option Snapshot) data_key
    compare_keys event_type eleve format_func st :
  let differ := compare_data previous_data data_key compare_keys event_type
                  eleve format_func in
  ∃ emitted,
    trace (snd (differ st)) = trace st ++ emitted
    ∧ trace (snd (differ (snd (differ st)))) = (trace st ++ emitted) ++ emitted
    ∧ self_data (snd (differ (snd (differ st)))) = self_data st
    ∧ fst (differ (snd (differ st))) = fst (differ st).
Proof.
  cbv zeta.
  exists (compare_effects previous_data (self_data st) data_key compare_keys
            event_type eleve format_func).
  rewrite !compare_data_run. cbn [fst snd self_data trace]. done.
Qed.

(** C10. Every occurrence in the current sub-collection of a record that
    matches no previous record is notified: the records notified, in
    order, contain each record equal to [r0] on the comparison keys as
    many times as the current sub-collection does. *)
Theorem duplicates_are_notified_each (previous d : Snapshot) data_key
    compare_keys event_type eleve format_func fmt (p c : list Item) (r0 : Item) st :
  previous !! data_key = Some (VItems p) ->
  self_data st = Some d ->
  d !! data_key = Some (VItems c) ->
  Forall (well_formatted format_func fmt compare_keys) p ->
  Forall (well_formatted format_func fmt compare_keys) c ->
  (∀ q, q ∈ p -> same_fields fmt compare_keys q r0 = false) ->
  ∃ notified,
    compare_data (Some previous) data_key compare_keys event_type eleve
      format_func st
    = (Ok tt,
       {| self_data := self_data st;
          trace := trace st
                   ++ map (fun r => notification event_type eleve (fmt r))
                        notified |})
    ∧ List.filter (same_fields fmt compare_keys r0) notified
      = List.filter (same_fields fmt compare_keys r0) c
    ∧ length (List.filter (same_fields fmt compare_keys r0) notified)
      = length (List.filter (same_fields fmt compare_keys r0) c).
Proof.
  intros Hprev Hdata Hcur Hp Hc Hfresh.
  exists (new_records fmt compare_keys p c).
  assert (List.filter (same_fields fmt compare_keys r0)
            (new_records fmt compare_keys p c)
          = List.filter (same_fields fmt compare_keys r0) c) as Hfilter.
  { apply filter_filter_implied. intros r Hr.
    apply negb_true_iff. apply not_true_is_false. intros Hex.
    apply existsb_exists in Hex as (q & Hq & Hqr).
    apply list_elem_of_In in Hq. specialize (Hfresh q Hq).
    rewrite (same_fields_trans fmt compare_keys q r r0) in Hfresh.
    - discriminate Hfresh.
    - exact Hqr.
    - by apply same_fields_sym. }
  split; [by apply (compare_data_well_formatted previous d)|].
  split; [exact Hfilter|].
  by rewrite Hfilter.
Qed.

End Differ.

(** ** The refresh operation *)

Section Refresh.

Context {Token EDEleve Item Value ConfigData : Type}.
Context `{EqDecision Value}.
Context {env : Collaborators Token EDEleve Item Value ConfigData}.

Abbreviation Snapshot := (gmap string (SVal Token EDEleve Item)).
Abbreviation Effect' := (Effect Token EDEleve Item Value ConfigData).
Abbreviation State' := (State Token EDEleve Item Value ConfigData).
Abbreviation M' := (@M Token EDEleve Item Value ConfigData).

Implicit Types (st : State') (d : Snapshot) (previous_data : option Snapshot).
Implicit Types (session : Session Token EDEleve) (eleve : EDEleve).
Implicit Types (year : string) (c : Category).

Lemma bind_executor_job {A B} (j : Job Token EDEleve ConfigData)
    (outcome : Exc A) (f : A -> M' B) st :
  (async_add_executor_job j outcome ≫= f) st
  = match outcome with
    | Ok a => f a {| self_data := self_data st; trace := trace st ++ [ExecutorJob j] |}
    | Raise ex =>
        (Raise ex, {| self_data := self_data st; trace := trace st ++ [ExecutorJob j] |})
    end.
Proof. by destruct outcome. Qed.

Lemma setitem_run key (v : SVal Token EDEleve Item) st d :
  self_data st = Some d ->
  setitem key v st = (Ok tt, {| self_data := Some (<[key := v]> d); trace := trace st |}).
Proof. intros Hd. unfold setitem. rewrite bind_get_data, Hd. reflexivity. Qed.

(** One category of one entity: the fetch, the store, and for the grades
    the differ, behind their [try]. *)
Lemma fetch_homework_run previous_data session year eleve st d :
  self_data st = Some d ->
  fetch_homework session eleve st
  = (Ok tt,
     {| self_data :=
          Some (category_store eleve Homework
                  (fetch_outcome session year eleve Homework) d);
        trace := trace st
                 ++ category_trace previous_data eleve Homework
                      (fetch_job session year eleve Homework)
                      (fetch_outcome session year eleve Homework) |}).
Proof.
  intros Hd. destruct st as [sd tr]. cbn [self_data trace] in *. subst sd.
  unfold fetch_homework, category_store, category_trace.
  cbn [module_tag fetch_job fetch_outcome].
  destruct (has_module "CAHIER_DE_TEXTES" eleve); [|by rewrite app_nil_r].
  unfold try_except. rewrite bind_executor_job. cbn [self_data trace].
  destruct (get_homeworks _ _ _) as [records|ex].
  - erewrite setitem_run by reflexivity. reflexivity.
  - unfold emit. cbn. by rewrite <- app_assoc.
Qed.

Lemma fetch_lessons_run previous_data session year eleve st d :
  self_data st = Some d ->
  fetch_lessons session eleve st
  = (Ok tt,
     {| self_data :=
          Some (category_store eleve Lessons
                  (fetch_outcome session year eleve Lessons) d);
        trace := trace st
                 ++ category_trace previous_data eleve Lessons
                      (fetch_job session year eleve Lessons)
                      (fetch_outcome session year eleve Lessons) |}).
Proof.
  intros Hd. destruct st as [sd tr]. cbn [self_data trace] in *. subst sd.
  unfold fetch_lessons, category_store, category_trace.
  cbn [module_tag fetch_job fetch_outcome].
  destruct (has_module "EDT" eleve); [|by rewrite app_nil_r].
  unfold try_except. rewrite bind_executor_job. cbn [self_data trace].
  destruct (get_lessons _ _ _ _) as [records|ex].
  - erewrite setitem_run by reflexivity. reflexivity.
  - unfold emit. cbn. by rewrite <- app_assoc.
Qed.

(** The grades: the differ runs on the snapshot in which the grades have
    just been stored. *)
Lemma fetch_grades_ok previous_data session year eleve st d grades :
  self_data st = Some d ->
  has_module "NOTES" eleve = true ->
  get_grades (token session) eleve year config_dir = Ok grades ->
  fetch_grades previous_data year session eleve st
  = (Ok tt,
     {| self_data := Some (<[category_key eleve Grades := VItems grades]> d);
        trace := (trace st
                  ++ [ExecutorJob (JobGrades (token session) eleve year config_dir)])
                 ++ compare_effects previous_data
                      (Some (<[category_key eleve Grades := VItems grades]> d))
                      (category_key eleve Grades) grade_compare_keys
                      grade_event_type eleve format_grade |}).
Proof.
  intros Hd Hmod Hgrades. destruct st as [sd tr].
  cbn [self_data trace] in *. subst sd.
  unfold fetch_grades. rewrite Hmod. apply try_ok.
  rewrite bind_executor_job, Hgrades. cbn [self_data trace].
  erewrite bind_ok; [|by apply setitem_run].
  by rewrite compare_data_run.
Qed.

Lemma fetch_grades_run previous_data session year eleve st d :
  self_data st = Some d ->
  fetch_grades previous_data year session eleve st
  = (Ok tt,
     {| self_data :=
          Some (category_store eleve Grades
                  (fetch_outcome session year eleve Grades) d);
        trace := trace st
                 ++ category_trace previous_data eleve Grades
                      (fetch_job session year eleve Grades)
                      (fetch_outcome session year eleve Grades) |}).
Proof.
  intros Hd. unfold category_store, category_trace.
  cbn [module_tag fetch_job fetch_outcome].
  destruct (has_module "NOTES" eleve) eqn:Hmod.
  - destruct (get_grades _ _ _ _) as [grades|ex] eqn:Hgrades.
    + erewrite fetch_grades_ok by done. rewrite <- app_assoc. cbn [app].
      do 4 f_equal. unfold grade_diff. apply compare_effects_lookup.
      by rewrite lookup_insert_eq, lookup_singleton_eq.
    + destruct st as [sd tr]. cbn [self_data trace] in *. subst sd.
      unfold fetch_grades. rewrite Hmod. unfold try_except.
      rewrite bind_executor_job, Hgrades. unfold emit. cbn.
      by rewrite <- app_assoc.
  - unfold fetch_grades. rewrite Hmod. rewrite app_nil_r.
    destruct st; cbn in *; by subst.
Qed.

(** One entity. *)
Lemma update_eleve_run previous_data session year eleve st d :
  self_data st = Some d ->
  update_eleve previous_data year session eleve st
  = (Ok tt,
     {| self_data := Some (eleve_store session year d eleve);
        trace := trace st ++ eleve_trace previous_data session year eleve |}).
Proof.
  intros Hd. unfold update_eleve.
  erewrite bind_ok; [|by apply (fetch_homework_run previous_data _ year)].
  erewrite bind_ok; [|by apply fetch_grades_run].
  erewrite fetch_lessons_run by reflexivity. cbn [trace].
  unfold eleve_store, eleve_trace, categories. cbn [fold_left flat_map].
  by rewrite app_nil_r, <- !app_assoc.
Qed.

(** The loop over the entities of the session. *)
Lemma for_each_eleve_run previous_data session year (l : list EDEleve) st d :
  self_data st = Some d ->
  for_each l (update_eleve previous_data year session) st
  = (Ok tt,
     {| self_data := Some (fold_left (eleve_store session year) l d);
        trace := trace st ++ flat_map (eleve_trace previous_data session year) l |}).
Proof.
  revert st d. induction l as [|eleve l IH]; intros st d Hd.
  - cbn. rewrite app_nil_r. destruct st; cbn in *; by subst.
  - cbn [for_each]. erewrite bind_ok; [|by apply update_eleve_run].
    erewrite IH by reflexivity. cbn [trace fold_left flat_map].
    by rewrite <- app_assoc.
Qed.

(** A refresh whose session is established. *)
Lemma update_data_run (current_year : Z) session st :
  get_ecoledirecte_session entry_data config_dir = Ok (Some session) ->
  _async_update_data current_year st
  = (Ok (Some (assemble session (year_data current_year))),
     {| self_data := Some (assemble session (year_data current_year));
        trace := trace st
                 ++ ExecutorJob (JobSession entry_data config_dir)
                    :: flat_map (eleve_trace (self_data st) session
                                   (year_data current_year))
                         (eleves session) |}).
Proof.
  intros Hsession. unfold _async_update_data.
  rewrite bind_get_data, bind_executor_job, Hsession.
  erewrite bind_ok; [|reflexivity].
  erewrite bind_ok; [|by apply setitem_run].
  erewrite bind_ok; [|by apply for_each_eleve_run].
  unfold get_data, assemble. cbn [self_data trace].
  rewrite insert_empty. by rewrite <- app_assoc.
Qed.

(** A refresh whose session is not established. *)
Lemma update_data_no_session (current_year : Z) st :
  get_ecoledirecte_session entry_data config_dir = Ok None ->
  _async_update_data current_year st
  = (Ok None,
     {| self_data := self_data st;
        trace := trace st
                 ++ [ExecutorJob (JobSession entry_data config_dir);
                     LogError "Unable to init ecole directe client"] |}).
Proof.
  intros Hsession. unfold _async_update_data.
  rewrite bind_get_data, bind_executor_job, Hsession.
  rewrite bind_emit. cbn. by rewrite <- app_assoc.
Qed.

Lemma elem_of_flat_map {A B} (f : A -> list B) (l : list A) (y : B) :
  y ∈ flat_map f l <-> ∃ x, x ∈ l ∧ y ∈ f x.
Proof.
  rewrite list_elem_of_In, in_flat_map. split; intros (x & Hx & Hy); exists x.
  - by rewrite !list_elem_of_In.
  - by rewrite <- !list_elem_of_In.
Qed.

Lemma elem_of_categories c : c ∈ categories.
Proof. unfold categories. destruct c; repeat constructor. Qed.

(** *** What the snapshot holds *)

Lemma category_store_other eleve c outcome d key :
  (has_module (module_tag c) eleve = true ->
   ∀ records, outcome = Ok records -> category_key eleve c ≠ key) ->
  category_store eleve c outcome d !! key = d !! key.
Proof.
  intros Hkey. unfold category_store.
  destruct (has_module (module_tag c) eleve); [|reflexivity].
  destruct outcome as [records|ex]; [|reflexivity].
  apply lookup_insert_ne. by eapply Hkey.
Qed.

Lemma category_store_keeps eleve c outcome d key :
  is_Some (d !! key) -> is_Some (category_store eleve c outcome d !! key).
Proof.
  intros Hsome. unfold category_store.
  destruct (has_module (module_tag c) eleve); [|exact Hsome].
  destruct outcome as [records|ex]; [|exact Hsome].
  rewrite lookup_insert. case_decide; [by eexists | exact Hsome].
Qed.

Lemma eleve_store_other session year d eleve key :
  (∀ c records, has_module (module_tag c) eleve = true ->
     fetch_outcome session year eleve c = Ok records ->
     category_key eleve c ≠ key) ->
  eleve_store session year d eleve !! key = d !! key.
Proof.
  intros Hkey. unfold eleve_store, categories. cbn [fold_left].
  rewrite !category_store_other; [reflexivity|..]; intros Hmod records Hok;
    by eapply Hkey.
Qed.

Lemma eleve_store_keeps session year d eleve key :
  is_Some (d !! key) -> is_Some (eleve_store session year d eleve !! key).
Proof.
  intros Hsome. unfold eleve_store, categories. cbn [fold_left].
  by do 3 apply category_store_keeps.
Qed.

Lemma eleve_store_stored session year d eleve c records :
  has_module (module_tag c) eleve = true ->
  fetch_outcome session year eleve c = Ok records ->
  is_Some (eleve_store session year d eleve !! category_key eleve c).
Proof.
  intros Hmod Hok. unfold eleve_store, categories. cbn [fold_left].
  assert (∀ d', is_Some (category_store eleve c
                          (fetch_outcome session year eleve c) d'
                        !! category_key eleve c)) as Hstore.
  { intros d'. unfold category_store. rewrite Hmod, Hok.
    rewrite lookup_insert_eq. by eexists. }
  destruct c; repeat first [apply Hstore | apply category_store_keeps].
Qed.

Lemma fold_eleve_store_other session year (l : list EDEleve) d key :
  (∀ eleve c records, eleve ∈ l ->
     has_module (module_tag c) eleve = true ->
     fetch_outcome session year eleve c = Ok records ->
     category_key eleve c ≠ key) ->
  fold_left (eleve_store session year) l d !! key = d !! key.
Proof.
  revert d. induction l as [|eleve l IH]; intros d Hkey; [reflexivity|].
  cbn [fold_left]. rewrite IH.
  - apply eleve_store_other. intros c records. apply Hkey. by left.
  - intros e' c records Hin. apply Hkey. by right.
Qed.

Lemma fold_eleve_store_keeps session year (l : list EDEleve) d key :
  is_Some (d !! key) ->
  is_Some (fold_left (eleve_store session year) l d !! key).
Proof.
  revert d. induction l as [|eleve l IH]; intros d Hsome; [exact Hsome|].
  cbn [fold_left]. by apply IH, eleve_store_keeps.
Qed.

Lemma fold_eleve_store_stored session year (l : list EDEleve) d eleve c records :
  eleve ∈ l ->
  has_module (module_tag c) eleve = true ->
  fetch_outcome session year eleve c = Ok records ->
  is_Some (fold_left (eleve_store session year) l d !! category_key eleve c).
Proof.
  intros Hin Hmod Hok. revert d.
  induction l as [|e' l IH]; intros d; [by apply elem_of_nil in Hin|].
  cbn [fold_left]. apply elem_of_cons in Hin as [<-|Hin].
  - by eapply fold_eleve_store_keeps, eleve_store_stored.
  - by apply IH.
Qed.

(** *** What the trace holds *)

Lemma category_trace_in previous_data session year (l : list EDEleve) eleve c eff :
  eleve ∈ l ->
  eff ∈ category_trace previous_data eleve c (fetch_job session year eleve c)
          (fetch_outcome session year eleve c) ->
  eff ∈ flat_map (eleve_trace previous_data session year) l.
Proof.
  intros Hin Heff. apply elem_of_flat_map. exists eleve. split; [exact Hin|].
  unfold eleve_trace. apply elem_of_flat_map. exists c.
  split; [apply elem_of_categories | exact Heff].
Qed.

(** The emission loop only fires events. *)
Lemma emission_loop_fires format_func event_type eleve (l : list Item) st :
  ∃ fired,
    trace (snd (for_each l (fun not_found_item =>
                  event_data ← lift (format_func not_found_item);
                  trigger_event event_type eleve event_data) st))
    = trace st ++ fired
    ∧ Forall (fun eff => ∃ name ev, eff = BusFire name ev) fired.
Proof.
  unfold trigger_event. revert st. induction l as [|x l IH]; intros st.
  - exists []. split; [by rewrite app_nil_r | constructor].
  - cbn [for_each]. rewrite bind_bind_lift.
    destruct (format_func x) as [f|ex].
    + rewrite bind_emit.
      destruct (IH {| self_data := self_data st;
                      trace := trace st ++ [BusFire EVENT_TYPE
                        {| child_name := get_fullname eleve;
                           event_type := event_type;
                           event_data := f |}] |}) as (fired & Htrace & Hfired).
      eexists (_ :: fired). split.
      * rewrite Htrace. cbn [trace]. by rewrite <- app_assoc.
      * constructor; [by eexists _, _ | exact Hfired].
    + exists []. split; [by rewrite app_nil_r | constructor].
Qed.

(** The differ makes no remote call. *)
Lemma compare_effects_no_job previous_data (od : option Snapshot) data_key
    compare_keys event_type eleve format_func (j : Job Token EDEleve ConfigData) :
  ExecutorJob j ∉ compare_effects previous_data od data_key compare_keys
                    event_type eleve format_func.
Proof.
  assert (∀ msg args, ExecutorJob j ∉ [LogWarning msg args : Effect']) as Hwarn.
  { intros msg args Hin%list_elem_of_singleton. discriminate Hin. }
  unfold compare_effects, compare_data, try_except, compare_data_body.
  destruct previous_data as [previous|]; [|by apply not_elem_of_nil].
  destruct (previous !! data_key) as [pv|]; [|by apply not_elem_of_nil].
  rewrite bind_get_data. cbn [self_data].
  destruct od as [d|]; [|apply Hwarn].
  destruct (d !! data_key) as [v|]; [|by apply not_elem_of_nil].
  rewrite bind_lift. destruct (iter v) as [items|ex]; [|apply Hwarn].
  rewrite bind_lift.
  destruct (scan format_func compare_keys pv items []) as [nf|ex];
    [|apply Hwarn].
  destruct (emission_loop_fires format_func event_type eleve nf
              {| self_data := Some d; trace := [] |}) as (fired & Htrace & Hfired).
  rewrite Forall_forall in Hfired.
  destruct (for_each nf _ _) as [[[]|ex] st']; cbn in *; rewrite Htrace;
    try rewrite elem_of_app; intros Hin.
  - by destruct (Hfired _ Hin) as (name & ev & ?).
  - destruct Hin as [Hin|Hin]; [|by apply Hwarn in Hin].
    by destruct (Hfired _ Hin) as (name & ev & ?).
Qed.

(** Every grades request of a refresh carries the label of the year. *)
Lemma grades_job_year previous_data session year (l : list EDEleve) tok eleve
    yr dir :
  ExecutorJob (JobGrades tok eleve yr dir)
    ∈ flat_map (eleve_trace previous_data session year) l ->
  yr = year.
Proof.
  intros (e' & _ & Hin)%elem_of_flat_map.
  unfold eleve_trace in Hin. apply elem_of_flat_map in Hin as (c & _ & Hin).
  unfold category_trace in Hin.
  destruct (has_module (module_tag c) e'); [|by apply elem_of_nil in Hin].
  apply elem_of_cons in Hin as [Hjob|Hin].
  - destruct c; cbn in Hjob; by simplify_eq.
  - destruct (fetch_outcome session year e' c) as [records|ex].
    + destruct c; try by apply elem_of_nil in Hin.
      by apply compare_effects_no_job in Hin.
    + apply list_elem_of_singleton in Hin. discriminate Hin.
Qed.

(** C1 (amended). When the session acquisition returns nothing, the refresh
    aborts: it returns nothing whatever the previous state was, it leaves
    [self.data] as it found it, and the only effects of the tick are the
    session request and the error record; no notification is fired. *)
Theorem no_session_aborts_refresh (current_year : Z) st :
  get_ecoledirecte_session entry_data config_dir = Ok None ->
  _async_update_data current_year st
  = (Ok None,
     {| self_data := self_data st;
        trace := trace st
                 ++ [ExecutorJob (JobSession entry_data config_dir);
                     LogError "Unable to init ecole directe client"] |}).
Proof. apply update_data_no_session. Qed.

(** C3 (amended). When the fetch of an enabled category of an entity
    raises, a warning is logged and nothing is stored for that fetch, and
    everything else proceeds: the returned snapshot is the one assembled
    from the outcomes of the fetches, every enabled category with a
    successful fetch is requested and has its key in the snapshot, the
    differ runs on every successful grades fetch, and the trace is the
    concatenation of what each entity and category contributes on its
    own.  The snapshot lacks the key of the failed category exactly when
    every entity of the session that shares the lower-cased name and has
    the category enabled fails too. *)
Theorem fetch_failure_is_isolated (current_year : Z) st session eleve c ex :
  let year := year_data current_year in
  get_ecoledirecte_session entry_data config_dir = Ok (Some session) ->
  eleve ∈ eleves session ->
  has_module (module_tag c) eleve = true ->
  fetch_outcome session year eleve c = Raise ex ->
  ∃ d new,
    _async_update_data current_year st
    = (Ok (Some d), {| self_data := Some d; trace := trace st ++ new |})
    ∧ (d !! category_key eleve c = None
       <-> ∀ e', e' ∈ eleves session ->
                 get_fullname_lower e' = get_fullname_lower eleve ->
                 has_module (module_tag c) e' = true ->
                 ∃ ex', fetch_outcome session year e' c = Raise ex')
    ∧ fetch_warning c ex ∈ new
    ∧ d = assemble session year
    ∧ new = ExecutorJob (JobSession entry_data config_dir)
            :: flat_map (eleve_trace (self_data st) session year) (eleves session)
    ∧ ∀ e' c' records,
        e' ∈ eleves session ->
        has_module (module_tag c') e' = true ->
        fetch_outcome session year e' c' = Ok records ->
        ExecutorJob (fetch_job session year e' c') ∈ new
        ∧ is_Some (d !! category_key e' c')
        ∧ (c' = Grades ->
           ∀ eff, eff ∈ grade_diff (self_data st) e' records -> eff ∈ new).
Proof.
  intros year Hsession Hin Hmod Hraise.
  eexists _, _. split; [by apply update_data_run|]. fold year.
  split; [|split; [|split; [reflexivity|split; [reflexivity|]]]].
  - split.
    + intros Habsent e' Hin' Hname Hmod'.
      destruct (fetch_outcome session year e' c) as [records|ex'] eqn:Hok;
        [|by exists ex'].
      assert (is_Some (assemble session year !! category_key e' c)) as [v Hv]
        by (unfold assemble; by eapply fold_eleve_store_stored).
      assert (category_key e' c = category_key eleve c) as Hkey
        by (unfold category_key; by rewrite Hname).
      rewrite Hkey in Hv. congruence.
    + intros Hnames. unfold assemble. rewrite fold_eleve_store_other.
      * apply lookup_singleton_ne. intros Heq. symmetry in Heq.
        by apply key_not_session in Heq.
      * intros e' c' records Hin' Hmod' Hok Hkey.
        apply key_suffix_inj in Hkey as [Hname ->].
        destruct (Hnames e' Hin' Hname Hmod') as [ex' Hraise']. congruence.
  - right. apply (category_trace_in _ _ _ _ eleve c); [exact Hin|].
    unfold category_trace. rewrite Hmod, Hraise. right. left.
  - intros e' c' records Hin' Hmod' Hok. split; [|split].
    + right. apply (category_trace_in _ _ _ _ e' c'); [exact Hin'|].
      unfold category_trace. rewrite Hmod'. left.
    + unfold assemble. by eapply fold_eleve_store_stored.
    + intros -> eff Heff. right.
      apply (category_trace_in _ _ _ _ e' Grades); [exact Hin'|].
      unfold category_trace. rewrite Hmod', Hok. by right.
Qed.

(** C4. The differ never lets an exception out and never touches
    [self.data]; when the comparison raises, the exception is logged in a
    warning that carries the key, after whatever the comparison had already
    emitted; and the refresh still returns the snapshot assembled from the
    fetches, whatever the formatter does. *)
Theorem comparison_failure_is_contained previous_data data_key compare_keys
    event_type eleve (format_func : Item -> Exc (gmap string Value)) st :
  let body := compare_data_body previous_data data_key compare_keys event_type
                eleve format_func in
  let differ := compare_data previous_data data_key compare_keys event_type
                  eleve format_func in
  fst (differ st) = Ok tt
  ∧ self_data (snd (differ st)) = self_data st
  ∧ (∀ ex, fst (body st) = Raise ex ->
       trace (snd (differ st))
       = trace (snd (body st))
         ++ [LogWarning
               "Error comparing data: self[%s] previous_data[%s] data_key[%s] ex[%s]"
               [ArgSelf; ArgData previous_data; ArgKey data_key; ArgExn ex]])
  ∧ (∀ (current_year : Z) session st0,
       get_ecoledirecte_session entry_data config_dir = Ok (Some session) ->
       fst (_async_update_data current_year st0)
       = Ok (Some (assemble session (year_data current_year)))).
Proof.
  cbv zeta. split; [apply compare_data_returns|].
  split; [apply compare_data_keeps_data|]. split.
  - intros ex Hraise. unfold compare_data, try_except.
    destruct (compare_data_body _ _ _ _ _ _ st) as [r st']. cbn in Hraise.
    subst r. reflexivity.
  - intros current_year session st0 Hsession.
    by rewrite (update_data_run current_year session st0 Hsession).
Qed.

(** C6 (amended). For an entity whose grades are fetched, the differ runs
    right after the grades are stored: after the homework category has
    been dealt with, and before the lessons are fetched and stored.  The
    snapshot the differ reads holds the homework and the grades of the
    entity, and the lessons only enter it afterwards. *)
Theorem differ_runs_before_lessons previous_data session year eleve st d grades :
  let at_diff :=
    <[category_key eleve Grades := VItems grades]>
      (category_store eleve Homework (fetch_outcome session year eleve Homework) d) in
  self_data st = Some d ->
  has_module "NOTES" eleve = true ->
  get_grades (token session) eleve year config_dir = Ok grades ->
  update_eleve previous_data year session eleve st
  = (Ok tt,
     {| self_data :=
          Some (category_store eleve Lessons
                  (fetch_outcome session year eleve Lessons) at_diff);
        trace :=
          trace st
          ++ category_trace previous_data eleve Homework
               (fetch_job session year eleve Homework)
               (fetch_outcome session year eleve Homework)
          ++ [ExecutorJob (JobGrades (token session) eleve year config_dir)]
          ++ compare_effects previous_data (Some at_diff)
               (category_key eleve Grades) grade_compare_keys grade_event_type
               eleve format_grade
          ++ category_trace previous_data eleve Lessons
               (fetch_job session year eleve Lessons)
               (fetch_outcome session year eleve Lessons) |}).
Proof.
  intros at_diff Hd Hmod Hgrades. unfold update_eleve.
  erewrite bind_ok; [|by apply (fetch_homework_run previous_data _ year)].
  erewrite bind_ok; [|by apply fetch_grades_ok].
  erewrite (fetch_lessons_run previous_data _ year) by reflexivity.
  cbn [trace]. by rewrite <- !app_assoc.
Qed.

(** C9. The academic-year label is "(year-1)-(year)" in an even year and
    "(year)-(year+1)" in an odd one, "2023-2024" for 2024 and "2025-2026"
    for 2025; and it is the label every grades request of the refresh
    carries. *)
Theorem academic_year_label (current_year : Z) :
  year_data current_year
  = (if Z.even current_year
     then str (current_year - 1) +:+ "-" +:+ str current_year
     else str current_year +:+ "-" +:+ str (current_year + 1))
  ∧ year_data 2024 = "2023-2024"
  ∧ year_data 2025 = "2025-2026"
  ∧ ∀ st session,
      get_ecoledirecte_session entry_data config_dir = Ok (Some session) ->
      ∃ new,
        trace (snd (_async_update_data current_year st)) = trace st ++ new
        ∧ (∀ eleve, eleve ∈ eleves session ->
             has_module "NOTES" eleve = true ->
             ExecutorJob (JobGrades (token session) eleve
                            (year_data current_year) config_dir) ∈ new)
        ∧ (∀ tok eleve yr dir,
             ExecutorJob (JobGrades tok eleve yr dir) ∈ new ->
             yr = year_data current_year).
Proof.
  split; [|split; [reflexivity|split; [reflexivity|]]].
  - unfold year_data. rewrite Zmod_even.
    by destruct (Z.even current_year).
  - intros st session Hsession.
    rewrite (update_data_run current_year session st Hsession).
    eexists. split; [reflexivity|]. split.
    + intros eleve Hin Hmod. right.
      apply (category_trace_in _ _ _ _ eleve Grades); [exact Hin|].
      unfold category_trace. cbn [module_tag]. rewrite Hmod. left.
    + intros tok eleve yr dir [Hjob|Hin]%elem_of_cons; [discriminate Hjob|].
      by eapply grades_job_year.
Qed.

End Refresh.

(** ** Edge behaviour of the differ *)

Section DifferEdges.

Context {Token EDEleve Item Value ConfigData : Type}.
Context `{EqDecision Value}.
Context {env : Collaborators Token EDEleve Item Value ConfigData}.

Abbreviation Snapshot := (gmap string (SVal Token EDEleve Item)).
Abbreviation Effect' := (Effect Token EDEleve Item Value ConfigData).
Abbreviation State' := (State Token EDEleve Item Value ConfigData).
Abbreviation M' := (@M Token EDEleve Item Value ConfigData).

Implicit Types (format_func : Item -> Exc (gmap string Value)).
Implicit Types (fmt : Item -> gmap string Value).
Implicit Types (compare_keys : list string) (st : State').

Lemma bind_trigger_event {B} event_type eleve (f : gmap string Value)
    (g : unit -> M' B) st :
  (trigger_event event_type eleve f ≫= g) st
  = g tt {| self_data := self_data st;
            trace := trace st ++ [notification event_type eleve f] |}.
Proof. reflexivity. Qed.

(** The emission loop, whatever the formatter does: it fires the
    notifications of a prefix of the queue, and stops at the first record
    the formatter refuses. *)
Lemma emission_loop_run format_func event_type eleve (l : list Item) st :
  ∃ fields,
    Forall (fun f => ∃ x, x ∈ l ∧ format_func x = Ok f) fields
    ∧ (for_each l (fun not_found_item =>
         event_data ← lift (format_func not_found_item);
         trigger_event event_type eleve event_data) st
       = (Ok tt,
          {| self_data := self_data st;
             trace := trace st ++ map (notification event_type eleve) fields |})
       ∨ ∃ ex,
           for_each l (fun not_found_item =>
             event_data ← lift (format_func not_found_item);
             trigger_event event_type eleve event_data) st
           = (Raise ex,
              {| self_data := self_data st;
                 trace := trace st ++ map (notification event_type eleve) fields |})).
Proof.
  revert st. induction l as [|x l IH]; intros st.
  - exists []. split; [constructor|]. left. cbn. rewrite app_nil_r. by destruct st.
  - cbn [for_each]. rewrite bind_bind_lift.
    destruct (format_func x) as [f|ex] eqn:Hx.
    + rewrite !bind_trigger_event.
      destruct (IH {| self_data := self_data st;
                      trace := trace st ++ [notification event_type eleve f] |})
        as (fields & Hfields & Hrun).
      exists (f :: fields). split.
      * constructor; [exists x; split; [left | exact Hx]|].
        eapply Forall_impl; [exact Hfields|].
        intros f' (x' & Hin & Hx'). exists x'. split; [by right | exact Hx'].
      * cbn [self_data trace map] in *. rewrite <- !app_assoc in Hrun.
        exact Hrun.
    + exists []. split; [constructor|]. right. exists ex. cbn.
      rewrite app_nil_r. by destruct st.
Qed.

(** The queue of the scan is drawn from the current sub-collection. *)
Lemma scan_subset format_func compare_keys (pv : SVal Token EDEleve Item)
    (items acc nf : list Item) :
  scan format_func compare_keys pv items acc = Ok nf ->
  ∀ x, x ∈ nf -> x ∈ acc ∨ x ∈ items.
Proof.
  revert acc. induction items as [|item items IH]; intros acc Hscan x Hx.
  - cbn in Hscan. simplify_eq. by left.
  - cbn [scan] in Hscan.
    destruct (iter pv) as [previous_items|]; [|discriminate Hscan].
    cbn in Hscan.
    destruct (find_previous format_func compare_keys item previous_items)
      as [found|]; [|discriminate Hscan].
    cbn in Hscan. destruct (IH _ Hscan x Hx) as [Hacc|Hitems].
    + destruct found; [by left|].
      apply elem_of_app in Hacc as [Hacc|Hitem]; [by left|].
      apply list_elem_of_singleton in Hitem as ->. right. left.
    + right. by right.
Qed.

(** The general run of the differ. *)
Lemma compare_data_shape (previous_data : option Snapshot) data_key
    compare_keys event_type eleve format_func st :
  ∃ fields tail,
    compare_data previous_data data_key compare_keys event_type eleve
      format_func st
    = (Ok tt,
       {| self_data := self_data st;
          trace := trace st ++ map (notification event_type eleve) fields ++ tail |})
    ∧ (tail = [] ∨ ∃ ex, tail = [comparison_warning previous_data data_key ex])
    ∧ Forall (fun f => ∃ d items x,
                self_data st = Some d ∧ d !! data_key = Some (VItems items)
                ∧ x ∈ items ∧ format_func x = Ok f) fields.
Proof.
  destruct st as [sd tr]. cbn [self_data trace].
  assert (∀ t : list Effect', t = t ++ map (notification event_type eleve) [] ++ [])
    as Hnone by (intros t; cbn; by rewrite app_nil_r).
  unfold compare_data, compare_data_body, try_except.
  destruct previous_data as [previous|];
    [|exists [], []; split; [cbn; by rewrite <- Hnone|split; [by left|constructor]]].
  destruct (previous !! data_key) as [pv|];
    [|exists [], []; split; [cbn; by rewrite <- Hnone|split; [by left|constructor]]].
  rewrite bind_get_data. cbn [self_data].
  destruct sd as [d|];
    [|exists [], [comparison_warning (Some previous) data_key
                    (TypeError "argument of type 'NoneType' is not iterable")];
      split; [reflexivity|split; [right; by eexists|constructor]]].
  destruct (d !! data_key) as [v|] eqn:Hv;
    [|exists [], []; split; [cbn; by rewrite <- Hnone|split; [by left|constructor]]].
  rewrite bind_lift. destruct v as [sess|items]; cbn [iter].
  { eexists [], [_]. split; [reflexivity|split; [right; by eexists|constructor]]. }
  rewrite bind_lift.
  destruct (scan format_func compare_keys pv items []) as [nf|ex] eqn:Hscan;
    [|eexists [], [_]; split; [reflexivity|split; [right; by eexists|constructor]]].
  destruct (emission_loop_run format_func event_type eleve nf
              {| self_data := Some d; trace := tr |})
    as (fields & Hfields & [Hrun|[ex Hrun]]); rewrite Hrun;
    cbn [self_data trace].
  - exists fields, []. split; [by rewrite app_nil_r|]. split; [by left|].
    eapply Forall_impl; [exact Hfields|].
    intros f (x & Hin & Hx). exists d, items, x. repeat split; try done.
    by destruct (scan_subset _ _ _ _ _ _ Hscan x Hin) as [?%elem_of_nil|?].
  - exists fields, [comparison_warning (Some previous) data_key ex].
    split; [|split; [right; by eexists|]].
    + unfold emit. cbn. by rewrite <- app_assoc.
    + eapply Forall_impl; [exact Hfields|].
      intros f (x & Hin & Hx). exists d, items, x. repeat split; try done.
      by destruct (scan_subset _ _ _ _ _ _ Hscan x Hin) as [?%elem_of_nil|?].
Qed.

(** X12. Whatever its arguments and the state, the differ returns
    normally, leaves [self.data] alone, and adds to the trace a sequence
    of notifications for its entity and its tag, each carrying the
    formatted fields of a record of the current sub-collection, followed by
    at most one warning. *)
Theorem differ_effects_shape (previous_data : option Snapshot) data_key
    compare_keys event_type eleve format_func st :
  ∃ fields tail,
    compare_data previous_data data_key compare_keys event_type eleve
      format_func st
    = (Ok tt,
       {| self_data := self_data st;
          trace := trace st ++ map (notification event_type eleve) fields ++ tail |})
    ∧ (tail = [] ∨ ∃ ex, tail = [comparison_warning previous_data data_key ex])
    ∧ Forall (fun f => ∃ d items x,
                self_data st = Some d ∧ d !! data_key = Some (VItems items)
                ∧ x ∈ items ∧ format_func x = Ok f) fields.
Proof. apply compare_data_shape. Qed.

(** The run of the differ once both sub-collections are found. *)
Lemma compare_data_found (previous d : Snapshot) data_key compare_keys
    event_type eleve format_func (p c : list Item) tr :
  previous !! data_key = Some (VItems p) ->
  d !! data_key = Some (VItems c) ->
  compare_data (Some previous) data_key compare_keys event_type eleve
    format_func {| self_data := Some d; trace := tr |}
  = try_except
      (not_found_items ←
         lift (scan format_func compare_keys
                 (VItems p : SVal Token EDEleve Item) c []);
       for_each not_found_items (fun not_found_item =>
         event_data ← lift (format_func not_found_item);
         trigger_event event_type eleve event_data))
      (fun ex => emit (comparison_warning (Some previous) data_key ex))
      {| self_data := Some d; trace := tr |}.
Proof.
  intros Hprev Hcur. unfold compare_data, compare_data_body, try_except.
  rewrite Hprev, bind_get_data. cbn [self_data]. rewrite Hcur.
  rewrite bind_lift. reflexivity.
Qed.

(** X13. An empty current sub-collection: the differ does nothing,
    whatever the previous snapshot holds under the key and whatever the
    formatter would do. *)
Theorem empty_current_is_noop (previous_data : option Snapshot) (d : Snapshot)
    data_key compare_keys event_type eleve format_func st :
  self_data st = Some d ->
  d !! data_key = Some (VItems []) ->
  compare_data previous_data data_key compare_keys event_type eleve
    format_func st = (Ok tt, st).
Proof.
  intros Hd Hcur. destruct st as [sd tr]. cbn [self_data] in Hd. subst sd.
  unfold compare_data, compare_data_body, try_except.
  destruct previous_data as [previous|]; [|reflexivity].
  destruct (previous !! data_key) as [pv|]; [|reflexivity].
  rewrite bind_get_data. cbn [self_data]. rewrite Hcur. reflexivity.
Qed.

Lemma scan_no_keys format_func (q : Item) (p items acc : list Item) :
  scan format_func [] (VItems (q :: p) : SVal Token EDEleve Item) items acc
  = Ok acc.
Proof.
  revert acc. induction items as [|item items IH]; intros acc; [reflexivity|].
  cbn [scan iter]. cbn. rewrite bool_decide_eq_true_2 by reflexivity. apply IH.
Qed.

(** X14. With no comparison key every record looks like every other: as
    soon as the previous sub-collection is not empty, nothing is new and
    the formatter is not even called. *)
Theorem no_compare_key_finds_everything (previous d : Snapshot) data_key
    event_type eleve format_func (q : Item) (p c : list Item) st :
  previous !! data_key = Some (VItems (q :: p)) ->
  self_data st = Some d ->
  d !! data_key = Some (VItems c) ->
  compare_data (Some previous) data_key [] event_type eleve format_func st
  = (Ok tt, st).
Proof.
  intros Hprev Hd Hcur. destruct st as [sd tr]. cbn [self_data] in Hd. subst sd.
  rewrite (compare_data_found previous d data_key [] event_type eleve
             format_func (q :: p) c) by done.
  apply try_ok. rewrite bind_lift, scan_no_keys. reflexivity.
Qed.

Lemma scan_no_previous format_func compare_keys (items acc : list Item) :
  scan format_func compare_keys (VItems [] : SVal Token EDEleve Item) items acc
  = Ok (acc ++ items).
Proof.
  revert acc. induction items as [|item items IH]; intros acc.
  - cbn. by rewrite app_nil_r.
  - cbn [scan iter]. cbn. rewrite IH. by rewrite <- app_assoc.
Qed.

(** X15. An empty previous sub-collection: every current record is new.
    The formatter only has to succeed; the comparison keys are not looked
    up. *)
Theorem empty_previous_notifies_all (previous d : Snapshot) data_key
    compare_keys event_type eleve format_func fmt (c : list Item) st :
  previous !! data_key = Some (VItems []) ->
  self_data st = Some d ->
  d !! data_key = Some (VItems c) ->
  Forall (fun x => format_func x = Ok (fmt x)) c ->
  compare_data (Some previous) data_key compare_keys event_type eleve
    format_func st
  = (Ok tt,
     {| self_data := self_data st;
        trace := trace st
                 ++ map (fun r => notification event_type eleve (fmt r)) c |}).
Proof.
  intros Hprev Hd Hcur Hc. destruct st as [sd tr]. cbn [self_data] in Hd.
  subst sd.
  rewrite (compare_data_found previous d data_key compare_keys event_type eleve
             format_func [] c) by done.
  apply try_ok. rewrite bind_lift, scan_no_previous. cbn [app].
  by apply (for_each_notify format_func fmt).
Qed.

Lemma for_each_notify_raise format_func fmt event_type eleve
    (c1 c2 : list Item) (x : Item) ex st :
  Forall (fun x => format_func x = Ok (fmt x)) c1 ->
  format_func x = Raise ex ->
  for_each (c1 ++ x :: c2) (fun not_found_item =>
    event_data ← lift (format_func not_found_item);
    trigger_event event_type eleve event_data) st
  = (Raise ex,
     {| self_data := self_data st;
        trace := trace st
                 ++ map (fun r => notification event_type eleve (fmt r)) c1 |}).
Proof.
  intros Hc1 Hx. revert st. induction Hc1 as [|y c1 Hy _ IH]; intros st.
  - cbn [app for_each]. rewrite bind_bind_lift, Hx. cbn.
    rewrite app_nil_r. by destruct st.
  - cbn [app for_each]. rewrite bind_bind_lift, Hy, bind_trigger_event.
    rewrite IH. cbn [self_data trace map]. by rewrite <- app_assoc.
Qed.

(** X16. Notifications are not held back: when the previous
    sub-collection is empty and the formatter refuses a record, the records
    before it have been notified already; the warning comes after their
    notifications and the records after it are dropped. *)
Theorem emission_stops_at_first_failure (previous d : Snapshot) data_key
    compare_keys event_type eleve format_func fmt (c1 c2 : list Item)
    (x : Item) ex st :
  previous !! data_key = Some (VItems []) ->
  self_data st = Some d ->
  d !! data_key = Some (VItems (c1 ++ x :: c2)) ->
  Forall (fun x => format_func x = Ok (fmt x)) c1 ->
  format_func x = Raise ex ->
  compare_data (Some previous) data_key compare_keys event_type eleve
    format_func st
  = (Ok tt,
     {| self_data := self_data st;
        trace := trace st
                 ++ map (fun r => notification event_type eleve (fmt r)) c1
                 ++ [comparison_warning (Some previous) data_key ex] |}).
Proof.
  intros Hprev Hd Hcur Hc1 Hx. destruct st as [sd tr]. cbn [self_data] in Hd.
  subst sd.
  rewrite (compare_data_found previous d data_key compare_keys event_type eleve
             format_func [] (c1 ++ x :: c2)) by done.
  unfold try_except. rewrite bind_lift, scan_no_previous. cbn [app].
  rewrite (for_each_notify_raise format_func fmt _ _ c1 c2 x ex) by done.
  unfold emit. cbn. by rewrite <- app_assoc.
Qed.

Lemma scan_raise format_func fmt key keys (q : Item) (p c1 c2 : list Item)
    (x : Item) ex acc :
  Forall (well_formatted format_func fmt (key :: keys)) (q :: p) ->
  Forall (well_formatted format_func fmt (key :: keys)) c1 ->
  format_func x = Raise ex ->
  scan format_func (key :: keys) (VItems (q :: p) : SVal Token EDEleve Item)
    (c1 ++ x :: c2) acc
  = Raise ex.
Proof.
  intros Hprev Hc1 Hx. revert acc.
  induction Hc1 as [|y c1 Hy _ IH]; intros acc.
  - cbn [app scan iter]. cbn [mbind Exc_bind]. cbn [find_previous].
    unfold same_item, project.
    apply Forall_cons in Hprev as [[Hq Hqk] _]. rewrite Forall_forall in Hqk.
    destruct (project_from_lookup format_func q (fmt q) (key :: keys) ∅ Hq Hqk)
      as (a & -> & _).
    cbn. by rewrite Hx.
  - cbn [app scan iter]. cbn [mbind Exc_bind].
    rewrite (find_previous_spec format_func fmt) by done.
    cbn [mbind Exc_bind]. apply IH.
Qed.

(** X17. One record the formatter refuses silences the whole
    sub-collection: when the previous sub-collection is not empty and
    there is at least one comparison key, the scan raises before anything
    is emitted, so the only effect is the warning, even for new records
    that stand before the refused one. *)
Theorem refused_record_silences_the_diff (previous d : Snapshot) data_key
    key keys event_type eleve format_func fmt (q : Item) (p c1 c2 : list Item)
    (x : Item) ex st :
  previous !! data_key = Some (VItems (q :: p)) ->
  self_data st = Some d ->
  d !! data_key = Some (VItems (c1 ++ x :: c2)) ->
  Forall (well_formatted format_func fmt (key :: keys)) (q :: p) ->
  Forall (well_formatted format_func fmt (key :: keys)) c1 ->
  format_func x = Raise ex ->
  compare_data (Some previous) data_key (key :: keys) event_type eleve
    format_func st
  = (Ok tt,
     {| self_data := self_data st;
        trace := trace st ++ [comparison_warning (Some previous) data_key ex] |}).
Proof.
  intros Hprev Hd Hcur Hp Hc1 Hx. destruct st as [sd tr]. cbn [self_data] in Hd.
  subst sd.
  rewrite (compare_data_found previous d data_key (key :: keys) event_type eleve
             format_func (q :: p) (c1 ++ x :: c2)) by done.
  unfold try_except. rewrite bind_lift.
  by rewrite (scan_raise format_func fmt key keys q p c1 c2 x ex).
Qed.

Lemma same_fields_keys fmt (keys keys' : list string) (q r : Item) :
  (∀ k, k ∈ keys <-> k ∈ keys') ->
  same_fields fmt keys q r = same_fields fmt keys' q r.
Proof.
  intros Hkeys.
  destruct (same_fields fmt keys q r) eqn:Hs, (same_fields fmt keys' q r) eqn:Hs';
    try reflexivity.
  - apply not_true_iff_false in Hs'. destruct Hs'. apply same_fields_spec.
    intros k Hk. apply (proj1 (same_fields_spec fmt keys q r) Hs), Hkeys, Hk.
  - apply not_true_iff_false in Hs. destruct Hs. apply same_fields_spec.
    intros k Hk. apply (proj1 (same_fields_spec fmt keys' q r) Hs'), Hkeys, Hk.
Qed.

Lemma well_formatted_keys format_func fmt (keys keys' : list string) (x : Item) :
  (∀ k, k ∈ keys <-> k ∈ keys') ->
  well_formatted format_func fmt keys x ->
  well_formatted format_func fmt keys' x.
Proof.
  intros Hkeys [Hx Hk]. split; [exact Hx|].
  rewrite Forall_forall in *. intros k Hin. by apply Hk, Hkeys.
Qed.

(** X18. Only the set of comparison keys matters: listing the keys in
    another order, or a key twice, changes nothing to what the differ
    does on well-formatted records. *)
Theorem compare_keys_as_a_set (previous d : Snapshot) data_key
    (keys keys' : list string) event_type eleve format_func fmt
    (p c : list Item) st :
  (∀ k, k ∈ keys <-> k ∈ keys') ->
  previous !! data_key = Some (VItems p) ->
  self_data st = Some d ->
  d !! data_key = Some (VItems c) ->
  Forall (well_formatted format_func fmt keys) p ->
  Forall (well_formatted format_func fmt keys) c ->
  compare_data (Some previous) data_key keys event_type eleve format_func st
  = compare_data (Some previous) data_key keys' event_type eleve format_func st.
Proof.
  intros Hkeys Hprev Hd Hcur Hp Hc.
  rewrite (compare_data_well_formatted previous d data_key keys event_type
             eleve format_func fmt p c) by done.
  rewrite (compare_data_well_formatted previous d data_key keys' event_type
             eleve format_func fmt p c); try done.
  - do 4 f_equal. unfold new_records. apply filter_ext. intros r.
    f_equal. clear -Hkeys. induction p as [|q p IH]; [reflexivity|]. cbn [existsb].
    by rewrite IH, (same_fields_keys fmt keys keys').
  - eapply Forall_impl; [exact Hp|]. intros x. by apply well_formatted_keys.
  - eapply Forall_impl; [exact Hc|]. intros x. by apply well_formatted_keys.
Qed.

(** X19. The differ reads the current snapshot at its key only: two
    states whose snapshots agree at the key get the same effects, whatever
    else the snapshots hold and whatever their traces are. *)
Theorem differ_reads_only_its_key (previous_data : option Snapshot)
    (d d' : Snapshot) data_key compare_keys event_type eleve format_func st st' :
  self_data st = Some d ->
  self_data st' = Some d' ->
  d !! data_key = d' !! data_key ->
  ∃ emitted,
    compare_data previous_data data_key compare_keys event_type eleve
      format_func st
    = (Ok tt, {| self_data := self_data st; trace := trace st ++ emitted |})
    ∧ compare_data previous_data data_key compare_keys event_type eleve
        format_func st'
      = (Ok tt, {| self_data := self_data st'; trace := trace st' ++ emitted |}).
Proof.
  intros Hd Hd' Hlook.
  exists (compare_effects previous_data (Some d) data_key compare_keys
            event_type eleve format_func).
  rewrite !compare_data_run, Hd, Hd'. split; [reflexivity|].
  by rewrite (compare_effects_lookup previous_data d d').
Qed.

End DifferEdges.

(** ** Further properties of the refresh *)

Section RefreshEdges.

Context {Token EDEleve Item Value ConfigData : Type}.
Context `{EqDecision Value}.
Context {env : Collaborators Token EDEleve Item Value ConfigData}.

Abbreviation Snapshot := (gmap string (SVal Token EDEleve Item)).
Abbreviation Effect' := (Effect Token EDEleve Item Value ConfigData).
Abbreviation State' := (State Token EDEleve Item Value ConfigData).
Abbreviation M' := (@M Token EDEleve Item Value ConfigData).

Implicit Types (st : State') (d : Snapshot) (previous_data : option Snapshot).
Implicit Types (session : Session Token EDEleve) (eleve : EDEleve).
Implicit Types (year : string) (c : Category).

(** A refresh whose session request raises. *)
Lemma update_data_session_raises (current_year : Z) st ex :
  get_ecoledirecte_session entry_data config_dir = Raise ex ->
  _async_update_data current_year st
  = (Raise ex,
     {| self_data := self_data st;
        trace := trace st ++ [ExecutorJob (JobSession entry_data config_dir)] |}).
Proof.
  intros Hsession. unfold _async_update_data.
  by rewrite bind_get_data, bind_executor_job, Hsession.
Qed.

(** X1. An exception of the session request is not caught: the refresh
    raises it, after the request and nothing else; [self.data] is left as
    it was and no error record is written. *)
Theorem session_exception_propagates (current_year : Z) st ex :
  get_ecoledirecte_session entry_data config_dir = Raise ex ->
  _async_update_data current_year st
  = (Raise ex,
     {| self_data := self_data st;
        trace := trace st ++ [ExecutorJob (JobSession entry_data config_dir)] |}).
Proof. apply update_data_session_raises. Qed.

(** X2. The session request is the only way for the refresh to raise:
    whatever the fetches and the formatter do, the refresh raises an
    exception exactly when the session request raised it. *)
Theorem refresh_raises_only_with_session (current_year : Z) st ex :
  fst (_async_update_data current_year st) = Raise ex
  <-> get_ecoledirecte_session entry_data config_dir = Raise ex.
Proof.
  destruct (get_ecoledirecte_session entry_data config_dir)
    as [[session|]|ex'] eqn:Hsession.
  - rewrite (update_data_run current_year session st Hsession). by split.
  - rewrite (update_data_no_session current_year st Hsession). by split.
  - rewrite (update_data_session_raises current_year st ex' Hsession).
    cbn [fst]. split; congruence.
Qed.

(** X3. What the refresh returns does not depend on the state it starts
    from: the previous snapshot is only compared with, never carried
    over. *)
Theorem returned_value_ignores_prior_state (current_year : Z) st st' :
  fst (_async_update_data current_year st)
  = fst (_async_update_data current_year st').
Proof.
  destruct (get_ecoledirecte_session entry_data config_dir)
    as [[session|]|ex] eqn:Hsession.
  - by rewrite !(update_data_run current_year session _ Hsession).
  - by rewrite !(update_data_no_session current_year _ Hsession).
  - by rewrite !(update_data_session_raises current_year _ ex Hsession).
Qed.

Lemma assemble_session session year :
  assemble session year !! "session" = Some (VSession session).
Proof.
  unfold assemble. rewrite fold_eleve_store_other.
  - apply lookup_singleton_eq.
  - intros eleve c records _ _ _. apply key_not_session.
Qed.

(** X4. A snapshot always carries its session: when the session is
    established, the returned snapshot, which is also the new value of
    [self.data], maps ["session"] to it, whatever the pupils are called. *)
Theorem snapshot_holds_session (current_year : Z) session st :
  get_ecoledirecte_session entry_data config_dir = Ok (Some session) ->
  ∃ d, fst (_async_update_data current_year st) = Ok (Some d)
       ∧ self_data (snd (_async_update_data current_year st)) = Some d
       ∧ d !! "session" = Some (VSession session).
Proof.
  intros Hsession. rewrite (update_data_run current_year session st Hsession).
  eexists. split; [reflexivity|]. split; [reflexivity|].
  apply assemble_session.
Qed.

(** *** Where the entries of the snapshot come from *)

Lemma category_store_origin eleve c outcome d key v :
  category_store eleve c outcome d !! key = Some v ->
  d !! key = Some v
  ∨ (has_module (module_tag c) eleve = true
     ∧ ∃ records, outcome = Ok records
                  ∧ key = category_key eleve c ∧ v = VItems records).
Proof.
  unfold category_store.
  destruct (has_module (module_tag c) eleve); [|by left].
  destruct outcome as [records|ex]; [|by left].
  rewrite lookup_insert. case_decide as Hkey; [|by left].
  intros [= <-]. right. split; [reflexivity|]. by exists records.
Qed.

Lemma eleve_store_origin session year d eleve key v :
  eleve_store session year d eleve !! key = Some v ->
  d !! key = Some v
  ∨ ∃ c records,
      has_module (module_tag c) eleve = true
      ∧ fetch_outcome session year eleve c = Ok records
      ∧ key = category_key eleve c ∧ v = VItems records.
Proof.
  unfold eleve_store, categories. cbn [fold_left]. intros Hlook.
  apply category_store_origin in Hlook as [Hlook|(? & ? & ? & ? & ?)];
    [|right; by eexists Lessons, _].
  apply category_store_origin in Hlook as [Hlook|(? & ? & ? & ? & ?)];
    [|right; by eexists Grades, _].
  apply category_store_origin in Hlook as [Hlook|(? & ? & ? & ? & ?)];
    [by left|right; by eexists Homework, _].
Qed.

Lemma fold_eleve_store_origin session year (l : list EDEleve) d key v :
  fold_left (eleve_store session year) l d !! key = Some v ->
  d !! key = Some v
  ∨ ∃ eleve c records,
      eleve ∈ l
      ∧ has_module (module_tag c) eleve = true
      ∧ fetch_outcome session year eleve c = Ok records
      ∧ key = category_key eleve c ∧ v = VItems records.
Proof.
  revert d. induction l as [|eleve l IH]; intros d Hlook; [by left|].
  cbn [fold_left] in Hlook.
  apply IH in Hlook as [Hlook|(e' & c & records & Hin & Hrest)].
  - apply eleve_store_origin in Hlook as [Hlook|(c & records & Hrest)];
      [by left|].
    right. exists eleve, c, records. split; [left | exact Hrest].
  - right. exists e', c, records. split; [by right | exact Hrest].
Qed.

(** X5. The snapshot holds the session and what this tick fetched,
    nothing else: every other entry is the result of a successful fetch of
    an enabled category of an entity of the session, under the key of that
    entity and category.  Nothing of the previous snapshot stays. *)
Theorem snapshot_holds_only_fetched (current_year : Z) session st key v :
  let year := year_data current_year in
  get_ecoledirecte_session entry_data config_dir = Ok (Some session) ->
  (∃ d, fst (_async_update_data current_year st) = Ok (Some d)
        ∧ d !! key = Some v) ->
  (key = "session" ∧ v = VSession session)
  ∨ ∃ eleve c records,
      eleve ∈ eleves session
      ∧ has_module (module_tag c) eleve = true
      ∧ fetch_outcome session year eleve c = Ok records
      ∧ key = category_key eleve c ∧ v = VItems records.
Proof.
  intros year Hsession (d & Hrun & Hlook).
  rewrite (update_data_run current_year session st Hsession) in Hrun.
  cbn [fst] in Hrun. simplify_eq. unfold assemble in Hlook.
  apply fold_eleve_store_origin in Hlook as [Hlook|Hfetched]; [|by right].
  left. apply lookup_singleton_Some in Hlook as [<- <-]. by split.
Qed.

(** *** Where a successful fetch ends up *)

Lemma category_store_own eleve c c' outcome d :
  category_store eleve c' outcome d !! category_key eleve c
  = if decide (c' = c)
    then (if has_module (module_tag c) eleve
          then match outcome with
               | Ok records => Some (VItems records)
               | Raise _ => d !! category_key eleve c
               end
          else d !! category_key eleve c)
    else d !! category_key eleve c.
Proof.
  case_decide as Hc.
  - subst c'. unfold category_store.
    destruct (has_module (module_tag c) eleve); [|reflexivity].
    destruct outcome; [apply lookup_insert_eq | reflexivity].
  - apply category_store_other. intros _ records _ Hkey.
    by apply key_suffix_inj in Hkey as [_ ?].
Qed.

Lemma eleve_store_own session year d eleve c :
  eleve_store session year d eleve !! category_key eleve c
  = if has_module (module_tag c) eleve
    then match fetch_outcome session year eleve c with
         | Ok records => Some (VItems records)
         | Raise _ => d !! category_key eleve c
         end
    else d !! category_key eleve c.
Proof.
  unfold eleve_store, categories. cbn [fold_left].
  rewrite !category_store_own.
  destruct c; repeat case_decide; try done;
    destruct (has_module _ eleve); try reflexivity;
    by destruct (fetch_outcome _ _ _ _).
Qed.

Lemma eleve_store_namesake session year d eleve e' c :
  get_fullname_lower e' = get_fullname_lower eleve ->
  eleve_store session year d e' !! category_key eleve c
  = if has_module (module_tag c) e'
    then match fetch_outcome session year e' c with
         | Ok records => Some (VItems records)
         | Raise _ => d !! category_key eleve c
         end
    else d !! category_key eleve c.
Proof.
  intros Hname.
  assert (category_key eleve c = category_key e' c) as ->
    by (unfold category_key; by rewrite Hname).
  apply eleve_store_own.
Qed.

Lemma eleve_store_stranger session year d eleve e' c :
  get_fullname_lower e' ≠ get_fullname_lower eleve ->
  eleve_store session year d e' !! category_key eleve c
  = d !! category_key eleve c.
Proof.
  intros Hname. apply eleve_store_other. intros c' records _ _ Hkey.
  by apply key_suffix_inj in Hkey as [? _].
Qed.

Lemma fold_eleve_store_fetched session year (l : list EDEleve) d eleve c records :
  has_module (module_tag c) eleve = true ->
  fetch_outcome session year eleve c = Ok records ->
  (∀ e' records',
     e' ∈ l ->
     get_fullname_lower e' = get_fullname_lower eleve ->
     has_module (module_tag c) e' = true ->
     fetch_outcome session year e' c = Ok records' ->
     records' = records) ->
  eleve ∈ l ∨ d !! category_key eleve c = Some (VItems records) ->
  fold_left (eleve_store session year) l d !! category_key eleve c
  = Some (VItems records).
Proof.
  intros Hmod Hok. revert d.
  induction l as [|e' l IH]; intros d Hsame [Hin|Hd]; cbn [fold_left].
  - by apply elem_of_nil in Hin.
  - exact Hd.
  - apply IH; [intros ?????; apply Hsame; by try right|].
    apply elem_of_cons in Hin as [<-|Hin]; [|by left].
    right. by rewrite eleve_store_own, Hmod, Hok.
  - apply IH; [intros ?????; apply Hsame; by try right|]. right.
    destruct (decide (get_fullname_lower e' = get_fullname_lower eleve))
      as [Hname|Hname].
    + rewrite eleve_store_namesake by done.
      destruct (has_module (module_tag c) e') eqn:Hmod'; [|exact Hd].
      destruct (fetch_outcome session year e' c) as [records'|] eqn:Hok';
        [|exact Hd].
      by rewrite (Hsame e' records' ltac:(left) Hname Hmod' Hok').
    + by rewrite eleve_store_stranger.
Qed.

(** X6. What is fetched is stored as it came: the records of a successful
    fetch of an enabled category are in the snapshot under the key of the
    entity and category, provided no namesake of the entity in the session
    fetched different records for that category. *)
Theorem fetched_records_are_stored (current_year : Z) session st eleve c records :
  let year := year_data current_year in
  get_ecoledirecte_session entry_data config_dir = Ok (Some session) ->
  eleve ∈ eleves session ->
  has_module (module_tag c) eleve = true ->
  fetch_outcome session year eleve c = Ok records ->
  (∀ e' records',
     e' ∈ eleves session ->
     get_fullname_lower e' = get_fullname_lower eleve ->
     has_module (module_tag c) e' = true ->
     fetch_outcome session year e' c = Ok records' ->
     records' = records) ->
  ∃ d, fst (_async_update_data current_year st) = Ok (Some d)
       ∧ d !! category_key eleve c = Some (VItems records).
Proof.
  intros year Hsession Hin Hmod Hok Hsame.
  rewrite (update_data_run current_year session st Hsession).
  eexists. split; [reflexivity|]. unfold assemble.
  apply fold_eleve_store_fetched; try done. by left.
Qed.

End RefreshEdges.

(** ** Further properties of the trace of a refresh *)

Section RefreshTrace.

Context {Token EDEleve Item Value ConfigData : Type}.
Context `{EqDecision Value}.
Context {env : Collaborators Token EDEleve Item Value ConfigData}.

Abbreviation Snapshot := (gmap string (SVal Token EDEleve Item)).
Abbreviation Effect' := (Effect Token EDEleve Item Value ConfigData).
Abbreviation State' := (State Token EDEleve Item Value ConfigData).
Abbreviation M' := (@M Token EDEleve Item Value ConfigData).

Implicit Types (st : State') (d : Snapshot) (previous_data : option Snapshot).
Implicit Types (session : Session Token EDEleve) (eleve : EDEleve).
Implicit Types (year : string) (c : Category).

Lemma jobs_of_app (t1 t2 : list Effect') :
  jobs_of (t1 ++ t2) = jobs_of t1 ++ jobs_of t2.
Proof. unfold jobs_of. apply flat_map_app. Qed.

Lemma jobs_of_cons (eff : Effect') (t : list Effect') :
  jobs_of (eff :: t)
  = match eff with ExecutorJob j => [j] | _ => [] end ++ jobs_of t.
Proof. reflexivity. Qed.

Lemma jobs_of_none (t : list Effect') :
  (∀ j, ExecutorJob j ∉ t) -> jobs_of t = [].
Proof.
  induction t as [|eff t IH]; intros Hnone; [reflexivity|].
  rewrite jobs_of_cons, IH.
  - destruct eff as [j| | |]; try reflexivity.
    destruct (Hnone j). left.
  - intros j Hin. apply (Hnone j). by right.
Qed.

Lemma jobs_of_category_trace previous_data eleve c job outcome :
  jobs_of (category_trace previous_data eleve c job outcome)
  = if has_module (module_tag c) eleve then [job] else [].
Proof.
  unfold category_trace.
  destruct (has_module (module_tag c) eleve); [|reflexivity].
  rewrite jobs_of_cons. cbn [app]. f_equal. destruct outcome as [records|ex]; [|reflexivity].
  destruct c; try reflexivity.
  apply jobs_of_none. intros j. apply compare_effects_no_job.
Qed.

Lemma jobs_of_eleve_trace previous_data session year eleve :
  jobs_of (eleve_trace previous_data session year eleve)
  = enabled_jobs session year eleve.
Proof.
  unfold eleve_trace, enabled_jobs, categories. cbn [flat_map].
  rewrite !jobs_of_app, !jobs_of_category_trace. reflexivity.
Qed.

Lemma jobs_of_flat_map previous_data session year (l : list EDEleve) :
  jobs_of (flat_map (eleve_trace previous_data session year) l)
  = flat_map (enabled_jobs session year) l.
Proof.
  induction l as [|eleve l IH]; [reflexivity|]. cbn [flat_map].
  by rewrite jobs_of_app, jobs_of_eleve_trace, IH.
Qed.

(** X7. The remote calls of a refresh whose session is established are,
    in this order: the session request, then for each entity in the order
    of the session the requests of its enabled categories, homework before
    grades before lessons.  Each is made once, a failed request is not
    retried, a category that is not enabled is not requested, and the
    differ makes no request. *)
Theorem remote_calls_of_a_refresh (current_year : Z) session st :
  get_ecoledirecte_session entry_data config_dir = Ok (Some session) ->
  ∃ new,
    trace (snd (_async_update_data current_year st)) = trace st ++ new
    ∧ jobs_of new
      = JobSession entry_data config_dir
        :: flat_map (enabled_jobs session (year_data current_year))
             (eleves session).
Proof.
  intros Hsession. rewrite (update_data_run current_year session st Hsession).
  eexists. split; [reflexivity|].
  by rewrite jobs_of_cons, jobs_of_flat_map.
Qed.

Lemma category_trace_origin previous_data session year (l : list EDEleve) eff :
  eff ∈ flat_map (eleve_trace previous_data session year) l ->
  ∃ eleve c,
    eleve ∈ l
    ∧ has_module (module_tag c) eleve = true
    ∧ (eff = ExecutorJob (fetch_job session year eleve c)
       ∨ (∃ ex, fetch_outcome session year eleve c = Raise ex
                ∧ eff = fetch_warning c ex)
       ∨ (∃ grades, c = Grades
                    ∧ fetch_outcome session year eleve c = Ok grades
                    ∧ eff ∈ grade_diff previous_data eleve grades)).
Proof.
  intros (eleve & Hin & Heff)%elem_of_flat_map.
  unfold eleve_trace in Heff. apply elem_of_flat_map in Heff as (c & _ & Heff).
  exists eleve, c. split; [exact Hin|].
  unfold category_trace in Heff.
  destruct (has_module (module_tag c) eleve); [|by apply elem_of_nil in Heff].
  split; [reflexivity|].
  apply elem_of_cons in Heff as [->|Heff]; [by left|]. right.
  destruct (fetch_outcome session year eleve c) as [grades|ex].
  - right. destruct c; try by apply elem_of_nil in Heff. by exists grades.
  - left. apply list_elem_of_singleton in Heff. by exists ex.
Qed.

(** X8. The timetable window does not follow the calendar: whatever the
    current year, every lessons request of a refresh is for an entity of
    the session with the timetable module, with the token of the session,
    from 2024-05-02 to 2024-05-03. *)
Theorem lessons_window_is_fixed (current_year : Z) session st :
  get_ecoledirecte_session entry_data config_dir = Ok (Some session) ->
  ∃ new,
    trace (snd (_async_update_data current_year st)) = trace st ++ new
    ∧ ∀ tok eleve date_start date_end,
        ExecutorJob (JobLessons tok eleve date_start date_end) ∈ new ->
        tok = token session ∧ eleve ∈ eleves session
        ∧ has_module "EDT" eleve = true
        ∧ date_start = "2024-05-02" ∧ date_end = "2024-05-03".
Proof.
  intros Hsession. rewrite (update_data_run current_year session st Hsession).
  eexists. split; [reflexivity|].
  intros tok eleve ds de [Hjob|Hin]%elem_of_cons; [discriminate Hjob|].
  apply category_trace_origin in Hin
    as (e' & c & Hin & Hmod & [Hjob|[(ex & _ & Hw)|(grades & -> & _ & Hdiff)]]).
  - destruct c; cbn in Hjob; simplify_eq. by repeat split.
  - discriminate Hw.
  - by apply compare_effects_no_job in Hdiff.
Qed.

Lemma grade_diff_first_tick eleve (grades : list Item) :
  grade_diff None eleve grades = [].
Proof. reflexivity. Qed.

(** X9. The first refresh is silent: starting from no snapshot, with the
    session established, no notification is fired and no comparison is
    attempted, whatever grades are fetched. *)
Theorem first_refresh_is_silent (current_year : Z) session st :
  self_data st = None ->
  get_ecoledirecte_session entry_data config_dir = Ok (Some session) ->
  ∃ new,
    trace (snd (_async_update_data current_year st)) = trace st ++ new
    ∧ (∀ name ev, BusFire name ev ∉ new)
    ∧ (∀ key ex, comparison_warning None key ex ∉ new).
Proof.
  intros Hnone Hsession.
  rewrite (update_data_run current_year session st Hsession), Hnone.
  eexists. split; [reflexivity|].
  assert (∀ eff : Effect',
            eff ∈ ExecutorJob (JobSession entry_data config_dir)
                  :: flat_map (eleve_trace None session (year_data current_year))
                       (eleves session) ->
            (∃ j, eff = ExecutorJob j) ∨ ∃ c ex, eff = fetch_warning c ex)
    as Hkinds.
  { intros eff [->|Hin]%elem_of_cons; [left; by eexists|].
    apply category_trace_origin in Hin
      as (e' & c & _ & _ & [->|[(ex & _ & ->)|(grades & -> & _ & Hdiff)]]).
    - left. by eexists.
    - right. by eexists _, _.
    - rewrite grade_diff_first_tick in Hdiff. by apply elem_of_nil in Hdiff. }
  split.
  - intros name ev Hin. by destruct (Hkinds _ Hin) as [[j ?]|(c & ex & ?)].
  - intros key ex Hin.
    destruct (Hkinds _ Hin) as [[j ?]|(c & ex' & Heq)]; [done|].
    destruct c; discriminate Heq.
Qed.

(** X10. A refresh only notifies grades it has just fetched: every event
    fired during a refresh has the event name of the integration and the
    tag ["new_grade"], names a pupil of the session who has the grades
    module and whose grades were fetched, by their full name, and carries
    the formatted fields of one of those grades. *)
Theorem notifications_come_from_fetched_grades (current_year : Z) session st :
  get_ecoledirecte_session entry_data config_dir = Ok (Some session) ->
  ∃ new,
    trace (snd (_async_update_data current_year st)) = trace st ++ new
    ∧ ∀ name ev,
        BusFire name ev ∈ new ->
        ∃ eleve grades r fields,
          eleve ∈ eleves session
          ∧ has_module "NOTES" eleve = true
          ∧ get_grades (token session) eleve (year_data current_year) config_dir
            = Ok grades
          ∧ r ∈ grades
          ∧ format_grade r = Ok fields
          ∧ name = EVENT_TYPE
          ∧ ev = {| child_name := get_fullname eleve;
                    event_type := "new_grade";
                    event_data := fields |}.
Proof.
  intros Hsession. rewrite (update_data_run current_year session st Hsession).
  eexists. split; [reflexivity|].
  intros name ev [Hjob|Hin]%elem_of_cons; [discriminate Hjob|].
  apply category_trace_origin in Hin
    as (eleve & c & Hin & Hmod & [Hjob|[(ex & _ & Hw)|(grades & -> & Hok & Hdiff)]]);
    [discriminate Hjob | discriminate Hw |].
  unfold grade_diff, compare_effects in Hdiff.
  destruct (compare_data_shape (self_data st) (category_key eleve Grades)
              grade_compare_keys grade_event_type eleve format_grade
              {| self_data := Some {[ category_key eleve Grades := VItems grades ]};
                 trace := [] |})
    as (fields & tail & Hrun & Htail & Hfields).
  rewrite Hrun in Hdiff. cbn [snd trace app] in Hdiff.
  apply elem_of_app in Hdiff as [Hfired|Hwarn].
  - apply list_elem_of_fmap in Hfired as (f & Hev & Hf).
    rewrite Forall_forall in Hfields.
    destruct (Hfields f Hf) as (d & items & r & Hd & Hitems & Hr & Hformat).
    cbn [self_data] in Hd. simplify_eq.
    rewrite lookup_singleton_eq in Hitems. simplify_eq.
    exists eleve, items, r, f. unfold notification in Hev. by simplify_eq.
  - destruct Htail as [->|[ex ->]]; [by apply elem_of_nil in Hwarn|].
    apply list_elem_of_singleton in Hwarn. discriminate Hwarn.
Qed.

Lemma new_records_same (fmt : Item -> gmap string Value) compare_keys
    (l : list Item) :
  new_records fmt compare_keys l l = [].
Proof.
  unfold new_records. apply filter_none, Forall_forall. intros r Hr.
  apply negb_false_iff, existsb_exists. exists r.
  split; [by apply list_elem_of_In|]. by apply same_fields_spec.
Qed.

(** X11. A refresh that fetches what the previous refresh stored fires
    nothing: when the refresh is run again from the state it left, with the
    remote service answering the same, the names of the pupils distinct
    and the grades well formatted, the second run fires no notification
    and logs no comparison warning. *)
Theorem second_refresh_is_silent (current_year : Z) session st
    (fmt : Item -> gmap string Value) :
  let year := year_data current_year in
  let st1 := snd (_async_update_data current_year st) in
  get_ecoledirecte_session entry_data config_dir = Ok (Some session) ->
  (∀ e e', e ∈ eleves session -> e' ∈ eleves session ->
           get_fullname_lower e = get_fullname_lower e' -> e = e') ->
  (∀ e grades, e ∈ eleves session ->
               get_grades (token session) e year config_dir = Ok grades ->
               Forall (well_formatted format_grade fmt grade_compare_keys) grades) ->
  ∃ new,
    trace (snd (_async_update_data current_year st1)) = trace st1 ++ new
    ∧ (∀ name ev, BusFire name ev ∉ new)
    ∧ (∀ previous_data key ex, comparison_warning previous_data key ex ∉ new).
Proof.
  intros year st1 Hsession Hnames Hformat. unfold st1.
  rewrite (update_data_run current_year session st Hsession). cbn [snd].
  rewrite (update_data_run current_year session _ Hsession).
  cbn [snd self_data trace]. fold year.
  eexists. split; [reflexivity|].
  assert (∀ eff : Effect',
            eff ∈ ExecutorJob (JobSession entry_data config_dir)
                  :: flat_map (eleve_trace (Some (assemble session year))
                                 session year) (eleves session) ->
            (∃ j, eff = ExecutorJob j) ∨ ∃ c ex, eff = fetch_warning c ex)
    as Hkinds.
  { intros eff [->|Hin]%elem_of_cons; [left; by eexists|].
    apply category_trace_origin in Hin
      as (e & c & Hin & Hmod & [->|[(ex & _ & ->)|(grades & -> & Hok & Hdiff)]]).
    - left. by eexists.
    - right. by eexists _, _.
    - exfalso. unfold grade_diff, compare_effects in Hdiff.
      rewrite (compare_data_well_formatted (assemble session year)
                 {[ category_key e Grades := VItems grades ]}
                 (category_key e Grades) grade_compare_keys grade_event_type e
                 format_grade fmt grades grades) in Hdiff.
      + rewrite new_records_same in Hdiff. by apply elem_of_nil in Hdiff.
      + unfold assemble. apply fold_eleve_store_fetched; try done; [|by left].
        intros e' records' Hin' Hname _ Hok'.
        rewrite (Hnames e' e Hin' Hin Hname) in Hok'. congruence.
      + reflexivity.
      + apply lookup_singleton_eq.
      + by eapply Hformat.
      + by eapply Hformat. }
  split.
  - intros name ev Hin. by destruct (Hkinds _ Hin) as [[j ?]|(c & ex & ?)].
  - intros previous_data key ex Hin.
    destruct (Hkinds _ Hin) as [[j ?]|(c & ex' & Heq)]; [done|].
    destruct c; discriminate Heq.
Qed.

End RefreshTrace.

(** ** The properties on the concrete family *)

Ltac by_compute := vm_compute; reflexivity.

Ltac by_compute_some := vm_compute; eexists; reflexivity.

Ltac solve_well_formatted :=
  repeat
    (constructor;
     [split; [reflexivity | repeat (constructor; [by_compute_some|])]; constructor |]);
  constructor.

(** A tick without a session, after a tick that produced a snapshot: the
    refresh returns nothing and leaves the state alone. *)
Lemma no_session_after_first_tick :
  _async_update_data (env := sample 0) 2024 after_first_tick
  = (Ok None,
     {| self_data := self_data after_first_tick;
        trace := trace after_first_tick
                 ++ [ExecutorJob (JobSession 0%nat "/config");
                     LogError "Unable to init ecole directe client"] |}).
Proof.
  exact (no_session_aborts_refresh (env := sample 0) 2024 after_first_tick
           eq_refl).
Defined.

(** C1 as stated fails: after a first tick that produced a snapshot, the
    value returned by a tick without a session is not that snapshot. *)
Lemma returned_state_is_not_previous :
  fst (_async_update_data (env := sample 0) 2024 after_first_tick)
  ≠ Ok (self_data after_first_tick).
Proof.
  rewrite (update_data_no_session (env := sample 0)) by reflexivity.
  discriminate.
Qed.

(** The example of the specification: one grade before, the same grade and
    a new one now; exactly one notification, for the new grade. *)
Lemma new_grade_example :
  compare_data (env := sample 3) (Some john_before) "john doe_grades"
    grade_compare_keys grade_event_type john (fun item => Ok item)
    (john_stored [grade1; grade2])
  = (Ok tt,
     {| self_data := self_data (john_stored [grade1; grade2]);
        trace := trace (john_stored [grade1; grade2])
                 ++ map (fun r => notification (env := sample 3)
                                    grade_event_type john r)
                      (new_records (fun item => item) grade_compare_keys
                         [grade1] [grade1; grade2]) |})
  ∧ new_records (fun item => item) grade_compare_keys [grade1] [grade1; grade2]
    = [grade2].
Proof.
  split.
  - apply (compare_data_notifies_new_records (env := sample 3) john_before
             {[ "john doe_grades" := VItems [grade1; grade2] ]}).
    + apply lookup_singleton_eq.
    + reflexivity.
    + apply lookup_singleton_eq.
    + solve_well_formatted.
    + solve_well_formatted.
  - by_compute.
Defined.

(** The grades request of Jane fails while John's succeeds: Jane's key is
    absent from the snapshot, John's is there.  With her namesake in the
    session instead, the warning about Jane is logged all the same and the
    grades of the namesake are requested and stored. *)
Lemma jane_fails_john_proceeds :
  (∃ d, fst (_async_update_data (env := sample 2) 2024 first_tick) = Ok (Some d)
        ∧ d !! category_key (env := sample 2) jane Grades = None
        ∧ is_Some (d !! category_key (env := sample 2) john Grades))
  ∧ (∃ d new,
       _async_update_data (env := sample 1) 2024 first_tick
       = (Ok (Some d),
          {| self_data := Some d; trace := trace first_tick ++ new |})
       ∧ fetch_warning Grades (OtherError "HTTP 500") ∈ new
       ∧ ExecutorJob (JobGrades "tok" jane_bis (year_data 2024) "/config") ∈ new
       ∧ is_Some (d !! category_key (env := sample 1) jane_bis Grades)).
Proof.
  split.
  - destruct (fetch_failure_is_isolated (env := sample 2) 2024 first_tick
                {| token := "tok"; eleves := [jane; john] |} jane Grades
                (OtherError "HTTP 500"))
      as (d & new & Hrun & Habsent & _ & _ & _ & Hothers).
    + reflexivity.
    + left.
    + by_compute.
    + reflexivity.
    + exists d. split; [by rewrite Hrun|]. split.
      * apply Habsent. intros e' [->|Hin]%elem_of_cons Hname Hmod.
        -- by eexists.
        -- apply list_elem_of_singleton in Hin as ->. vm_compute in Hname.
           discriminate Hname.
      * apply (Hothers john Grades [grade1; grade2]).
        -- right. left.
        -- by_compute.
        -- reflexivity.
  - destruct (fetch_failure_is_isolated (env := sample 1) 2024 first_tick
                {| token := "tok"; eleves := [jane; jane_bis] |} jane Grades
                (OtherError "HTTP 500"))
      as (d & new & Hrun & _ & Hwarn & _ & _ & Hothers).
    + reflexivity.
    + left.
    + by_compute.
    + reflexivity.
    + exists d, new. split; [exact Hrun|]. split; [exact Hwarn|].
      destruct (Hothers jane_bis Grades [grade1; grade2]) as (Hjob & Hkey & _).
      * right. left.
      * by_compute.
      * reflexivity.
      * split; [exact Hjob | exact Hkey].
Defined.

(** C3 as stated fails: Jane and her namesake share the key of their
    grades, so the key is in the snapshot although Jane's fetch raised. *)
Lemma shared_name_keeps_failed_key :
  ¬ (∀ d ex,
       fetch_outcome (env := sample 1)
         {| token := "tok"; eleves := [jane; jane_bis] |}
         (year_data 2024) jane Grades = Raise ex ->
       fst (_async_update_data (env := sample 1) 2024 first_tick) = Ok (Some d) ->
       d !! category_key (env := sample 1) jane Grades = None).
Proof.
  intros Hall.
  pose proof (update_data_run (env := sample 1) 2024
                {| token := "tok"; eleves := [jane; jane_bis] |} first_tick
                eq_refl) as Hrun.
  apply (f_equal fst) in Hrun. cbn [fst] in Hrun.
  specialize (Hall _ (OtherError "HTTP 500") eq_refl Hrun).
  assert (is_Some (assemble (env := sample 1)
                     {| token := "tok"; eleves := [jane; jane_bis] |}
                     (year_data 2024)
                   !! category_key (env := sample 1) jane Grades)) as [v Hv].
  { apply (fold_eleve_store_stored (env := sample 1) _ _ _ _ jane_bis Grades
             [grade1; grade2]).
    - right. left.
    - by_compute.
    - reflexivity. }
  congruence.
Qed.

(** A grade without its subject makes the comparison raise: the differ
    returns all the same, with a warning that names the key and the
    exception; and the refresh of the family returns its snapshot. *)
Lemma broken_grade_is_logged :
  compare_data (env := sample 3) (Some john_before) "john doe_grades"
    grade_compare_keys grade_event_type john (fun item => Ok item)
    (john_stored [broken_grade])
  = (Ok tt,
     {| self_data := self_data (john_stored [broken_grade]);
        trace :=
          [LogWarning
             "Error comparing data: self[%s] previous_data[%s] data_key[%s] ex[%s]"
             [ArgSelf; ArgData (Some john_before); ArgKey "john doe_grades";
              ArgExn (KeyError "subject")]] |})
  ∧ fst (_async_update_data (env := sample 3) 2024 after_first_tick)
    = Ok (Some (assemble (env := sample 3)
                  {| token := "tok"; eleves := [john] |} (year_data 2024))).
Proof.
  destruct (comparison_failure_is_contained (env := sample 3) (Some john_before)
              "john doe_grades" grade_compare_keys grade_event_type john
              (fun item => Ok item) (john_stored [broken_grade]))
    as (Hret & Hdata & Hlog & Hrefresh).
  split.
  - specialize (Hlog (KeyError "subject")).
    destruct (compare_data _ _ _ _ _ _ _) as [r [sd tr]].
    cbn [fst snd self_data trace] in Hret, Hdata, Hlog. subst r sd.
    rewrite Hlog by by_compute. reflexivity.
  - apply Hrefresh. reflexivity.
Defined.

(** On the first tick there is no previous snapshot: the differ does
    nothing. *)
Lemma first_tick_diff_is_noop :
  compare_data (env := sample 3) None "john doe_grades" grade_compare_keys
    grade_event_type john (fun item => Ok item) (john_stored [grade1; grade2])
  = (Ok tt, john_stored [grade1; grade2]).
Proof.
  apply (compare_data_noop (env := sample 3)). by left.
Defined.

(** John's tick, from a snapshot that held his first grade: the
    notification about the second grade sits between the grades request
    and the lessons request. *)
Lemma john_tick_order :
  trace (snd (update_eleve (env := sample 3) (Some john_before) (year_data 2024)
                {| token := "tok"; eleves := [john] |} john
                {| self_data := Some ∅; trace := [] |}))
  = [ExecutorJob (JobGrades "tok" john "2023-2024" "/config");
     notification (env := sample 3) grade_event_type john grade2;
     ExecutorJob (JobLessons "tok" john edt_date_start edt_date_end)].
Proof.
  rewrite (differ_runs_before_lessons (env := sample 3) (Some john_before)
             {| token := "tok"; eleves := [john] |} (year_data 2024) john
             {| self_data := Some ∅; trace := [] |} ∅ [grade1; grade2]);
    [|reflexivity|by_compute|reflexivity].
  by_compute.
Defined.

(** C6 as stated fails: in John's tick the notification about his new
    grade is fired before his lessons are requested. *)
Lemma notification_precedes_lessons :
  ¬ notifications_follow_fetches (env := sample 3) john
      (trace (snd (_async_update_data (env := sample 3) 2024 after_first_tick))).
Proof.
  intros Hall.
  assert (3 < 2)%nat as Habsurd; [|lia].
  set (t := trace _) in Hall. vm_compute in t.
  eapply (Hall 2%nat 3%nat); subst t; reflexivity.
Qed.

(** The same grade with a comment added: no notification.  The same
    grade with a comment and a grade of another day: the second one is
    notified, the first one is not. *)
Lemma comment_is_not_compared :
  (compare_data (env := sample 3) (Some john_before) "john doe_grades"
     grade_compare_keys grade_event_type john (fun item => Ok item)
     (john_stored [grade1_commented])
   = (Ok tt, john_stored [grade1_commented])
   ∧ ∃ b, same_item (fun item => Ok item) grade_compare_keys
            grade1 grade1_commented = Ok b
          ∧ (b = true <->
             ∀ key, key ∈ grade_compare_keys ->
                    grade1 !! key = grade1_commented !! key))
  ∧ ∃ notified,
      compare_data (env := sample 3) (Some john_before) "john doe_grades"
        grade_compare_keys grade_event_type john (fun item => Ok item)
        (john_stored [grade1_commented; grade2])
      = (Ok tt,
         {| self_data := self_data (john_stored [grade1_commented; grade2]);
            trace := trace (john_stored [grade1_commented; grade2])
                     ++ map (fun r => notification (env := sample 3)
                                        grade_event_type john r) notified |})
      ∧ grade2 ∈ notified
      ∧ grade1_commented ∉ notified.
Proof.
  assert (∀ key, key ∈ grade_compare_keys ->
                 grade1 !! key = grade1_commented !! key) as Hsame1.
  { intros key Hin. unfold grade_compare_keys in Hin.
    repeat (apply elem_of_cons in Hin as [->|Hin]); try by_compute.
    by apply elem_of_nil in Hin. }
  split.
  - destruct (record_identity_on_compare_keys (env := sample 3) john_before
                {[ "john doe_grades" := VItems [grade1_commented] ]}
                "john doe_grades" grade_compare_keys grade_event_type john
                (fun item => Ok item) (fun item => item)
                [grade1] [grade1_commented] (john_stored [grade1_commented]))
      as (Hsame & _ & _ & Hnone).
    + solve_well_formatted.
    + solve_well_formatted.
    + split.
      * apply Hnone.
        -- apply lookup_singleton_eq.
        -- reflexivity.
        -- apply lookup_singleton_eq.
        -- constructor; [exact Hsame1 | constructor].
      * apply Hsame; left.
  - destruct (record_identity_on_compare_keys (env := sample 3) john_before
                {[ "john doe_grades" := VItems [grade1_commented; grade2] ]}
                "john doe_grades" grade_compare_keys grade_event_type john
                (fun item => Ok item) (fun item => item)
                [grade1] [grade1_commented; grade2]
                (john_stored [grade1_commented; grade2]))
      as (_ & _ & Hnotified & _).
    + solve_well_formatted.
    + solve_well_formatted.
    + destruct Hnotified as (notified & Hrun & Hmem).
      * apply lookup_singleton_eq.
      * reflexivity.
      * apply lookup_singleton_eq.
      * exists notified. split; [exact Hrun|]. split.
        -- apply Hmem. split; [right; left|].
           intros (q & Hq%list_elem_of_singleton & Hfields). subst q.
           specialize (Hfields "date" ltac:(left)).
           vm_compute in Hfields. discriminate Hfields.
        -- intros Hin%Hmem. destruct Hin as [_ Hnew]. apply Hnew.
           exists grade1. split; [left | exact Hsame1].
Defined.

(** The label of 2024 on the grades request of John. *)
Lemma john_grades_request_label :
  ∃ new,
    trace (snd (_async_update_data (env := sample 3) 2024 after_first_tick))
    = trace after_first_tick ++ new
    ∧ ExecutorJob (JobGrades "tok" john (year_data 2024) "/config") ∈ new.
Proof.
  destruct (academic_year_label (env := sample 3) 2024) as (_ & _ & _ & Hjobs).
  destruct (Hjobs after_first_tick {| token := "tok"; eleves := [john] |} eq_refl)
    as (new & Htrace & Hsent & _).
  exists new. split; [exact Htrace|].
  apply (Hsent john); [left | by_compute].
Defined.

(** The new grade twice in the current sub-collection: it is notified
    twice. *)
Lemma new_grade_twice :
  ∃ notified,
    compare_data (env := sample 3) (Some john_before) "john doe_grades"
      grade_compare_keys grade_event_type john (fun item => Ok item)
      (john_stored [grade2; grade1; grade2])
    = (Ok tt,
       {| self_data := self_data (john_stored [grade2; grade1; grade2]);
          trace := trace (john_stored [grade2; grade1; grade2])
                   ++ map (fun r => notification (env := sample 3)
                                      grade_event_type john r) notified |})
    ∧ length (List.filter
                (same_fields (fun item => item) grade_compare_keys grade2)
                notified) = 2%nat.
Proof.
  destruct (duplicates_are_notified_each (env := sample 3) john_before
              {[ "john doe_grades" := VItems [grade2; grade1; grade2] ]}
              "john doe_grades" grade_compare_keys grade_event_type john
              (fun item => Ok item) (fun item => item)
              [grade1] [grade2; grade1; grade2] grade2
              (john_stored [grade2; grade1; grade2]))
    as (notified & Hrun & _ & Hlength).
  - apply lookup_singleton_eq.
  - reflexivity.
  - apply lookup_singleton_eq.
  - solve_well_formatted.
  - solve_well_formatted.
  - intros q Hq. apply list_elem_of_singleton in Hq as ->. by_compute.
  - exists notified. split; [exact Hrun|]. rewrite Hlength. by_compute.
Defined.

(** ** The further properties on the concrete family *)

Ltac solve_strictly_formatted :=
  repeat
    (constructor;
     [split; [by_compute | repeat (constructor; [by_compute_some|])]; constructor |]);
  constructor.

(** The service cannot be reached: the refresh raises the exception of
    the session request. *)
Lemma offline_refresh_raises :
  _async_update_data (env := offline) 2024 after_first_tick
  = (Raise (OtherError "timeout"),
     {| self_data := self_data after_first_tick;
        trace := trace after_first_tick
                 ++ [ExecutorJob (JobSession 3%nat "/config")] |}).
Proof.
  exact (session_exception_propagates (env := offline) 2024 after_first_tick
           (OtherError "timeout") eq_refl).
Defined.

(** The refresh raises because the session request did. *)
Lemma offline_refresh_raises_timeout :
  fst (_async_update_data (env := offline) 2024 first_tick)
  = Raise (OtherError "timeout").
Proof.
  apply (refresh_raises_only_with_session (env := offline) 2024 first_tick).
  reflexivity.
Defined.

(** John's snapshot carries the session. *)
Lemma john_snapshot_has_session :
  ∃ d, fst (_async_update_data (env := sample 3) 2024 first_tick) = Ok (Some d)
       ∧ self_data (snd (_async_update_data (env := sample 3) 2024 first_tick))
         = Some d
       ∧ d !! "session" = Some (VSession {| token := "tok"; eleves := [john] |}).
Proof.
  exact (snapshot_holds_session (env := sample 3) 2024
           {| token := "tok"; eleves := [john] |} first_tick eq_refl).
Defined.

(** John's grades are in the snapshot as they were fetched. *)
Lemma john_grades_are_stored :
  ∃ d, fst (_async_update_data (env := sample 3) 2024 after_first_tick)
       = Ok (Some d)
       ∧ d !! category_key (env := sample 3) john Grades
         = Some (VItems [grade1; grade2]).
Proof.
  apply (fetched_records_are_stored (env := sample 3) 2024
           {| token := "tok"; eleves := [john] |} after_first_tick john Grades).
  - reflexivity.
  - left.
  - by_compute.
  - reflexivity.
  - intros e' records' Hin%list_elem_of_singleton _ _ Hok. subst e'.
    change (Ok [grade1; grade2] = Ok records') in Hok. by injection Hok.
Defined.

(** Every entry of John's snapshot is the session or something fetched:
    the entry under the key of his grades is the result of his grades
    request. *)
Lemma john_grades_entry_origin :
  ("john doe_grades" = "session"
   ∧ VItems [grade1; grade2] = VSession {| token := "tok"; eleves := [john] |})
  ∨ ∃ eleve c records,
      eleve ∈ [john]
      ∧ has_module (env := sample 3) (module_tag c) eleve = true
      ∧ fetch_outcome (env := sample 3) {| token := "tok"; eleves := [john] |}
          (year_data 2024) eleve c = Ok records
      ∧ "john doe_grades" = category_key (env := sample 3) eleve c
      ∧ (VItems [grade1; grade2] : SVal string Pupil (gmap string string))
        = VItems records.
Proof.
  apply (snapshot_holds_only_fetched (env := sample 3) 2024
           {| token := "tok"; eleves := [john] |} after_first_tick).
  - reflexivity.
  - eexists. split.
    + by rewrite (update_data_run (env := sample 3) 2024
                    {| token := "tok"; eleves := [john] |} after_first_tick eq_refl).
    + unfold assemble.
      apply (fold_eleve_store_fetched (env := sample 3) _ _ _ _ john Grades
               [grade1; grade2]).
      * by_compute.
      * reflexivity.
      * intros e' records' Hin%list_elem_of_singleton _ _ Hok. subst e'.
        change (Ok [grade1; grade2] = Ok records') in Hok. by injection Hok.
      * left. left.
Defined.

(** The requests of the tick of Jane and John, in order. *)
Lemma jane_and_john_requests :
  ∃ new,
    trace (snd (_async_update_data (env := sample 2) 2024 first_tick))
    = trace first_tick ++ new
    ∧ jobs_of new
      = [JobSession 2%nat "/config";
         JobHomeworks "tok" jane "/config";
         JobGrades "tok" jane "2023-2024" "/config";
         JobLessons "tok" jane "2024-05-02" "2024-05-03";
         JobGrades "tok" john "2023-2024" "/config";
         JobLessons "tok" john "2024-05-02" "2024-05-03"].
Proof.
  destruct (remote_calls_of_a_refresh (env := sample 2) 2024
              {| token := "tok"; eleves := [jane; john] |} first_tick eq_refl)
    as (new & Htrace & Hjobs).
  exists new. split; [exact Htrace|]. rewrite Hjobs. by_compute.
Defined.

(** In 2031 the lessons of John are still requested for May 2024. *)
Lemma john_lessons_window :
  ∃ new,
    trace (snd (_async_update_data (env := sample 3) 2031 first_tick))
    = trace first_tick ++ new
    ∧ ∀ tok eleve date_start date_end,
        ExecutorJob (JobLessons tok eleve date_start date_end) ∈ new ->
        tok = "tok" ∧ eleve ∈ [john]
        ∧ has_module (env := sample 3) "EDT" eleve = true
        ∧ date_start = "2024-05-02" ∧ date_end = "2024-05-03".
Proof.
  exact (lessons_window_is_fixed (env := sample 3) 2031
           {| token := "tok"; eleves := [john] |} first_tick eq_refl).
Defined.

(** John's first refresh fires nothing. *)
Lemma john_first_refresh_is_silent :
  ∃ new,
    trace (snd (_async_update_data (env := sample 3) 2024 first_tick))
    = trace first_tick ++ new
    ∧ (∀ name ev, BusFire name ev ∉ new)
    ∧ (∀ key ex, comparison_warning None key ex ∉ new).
Proof.
  exact (first_refresh_is_silent (env := sample 3) 2024
           {| token := "tok"; eleves := [john] |} first_tick eq_refl eq_refl).
Defined.

(** Whatever is fired in John's tick is one of his fetched grades. *)
Lemma john_notifications_origin :
  ∃ new,
    trace (snd (_async_update_data (env := sample 3) 2024 after_first_tick))
    = trace after_first_tick ++ new
    ∧ ∀ name ev,
        BusFire name ev ∈ new ->
        ∃ eleve grades r fields,
          eleve ∈ [john]
          ∧ has_module (env := sample 3) "NOTES" eleve = true
          ∧ family_grades eleve = Ok grades
          ∧ r ∈ grades
          ∧ Ok r = Ok fields
          ∧ name = "ecole_directe_event"
          ∧ ev = {| child_name := pupil_name eleve;
                    event_type := "new_grade";
                    event_data := fields |}.
Proof.
  exact (notifications_come_from_fetched_grades (env := sample 3) 2024
           {| token := "tok"; eleves := [john] |} after_first_tick eq_refl).
Defined.

(** No grade at all in the current sub-collection. *)
Lemma no_grade_is_noop :
  compare_data (env := sample 3) (Some john_before) "john doe_grades"
    grade_compare_keys grade_event_type john strict_format (john_stored [])
  = (Ok tt, john_stored []).
Proof.
  apply (empty_current_is_noop (env := sample 3) (Some john_before)
           {[ "john doe_grades" := VItems [] ]}).
  - reflexivity.
  - apply lookup_singleton_eq.
Defined.

(** No comparison key: the new grade is not seen, and the broken one
    does no harm. *)
Lemma no_key_no_news :
  compare_data (env := sample 3) (Some john_before) "john doe_grades" []
    grade_event_type john strict_format (john_stored [grade2; broken_grade])
  = (Ok tt, john_stored [grade2; broken_grade]).
Proof.
  apply (no_compare_key_finds_everything (env := sample 3) john_before
           {[ "john doe_grades" := VItems [grade2; broken_grade] ]}
           "john doe_grades" grade_event_type john strict_format grade1 []
           [grade2; broken_grade]).
  - apply lookup_singleton_eq.
  - reflexivity.
  - apply lookup_singleton_eq.
Defined.

(** John had no grade before: both grades are notified. *)
Lemma first_grades_are_all_new :
  compare_data (env := sample 3)
    (Some {[ "john doe_grades" := VItems [] ]}) "john doe_grades"
    grade_compare_keys grade_event_type john (fun item => Ok item)
    (john_stored [grade1; grade2])
  = (Ok tt,
     {| self_data := self_data (john_stored [grade1; grade2]);
        trace := trace (john_stored [grade1; grade2])
                 ++ map (fun r => notification (env := sample 3)
                                    grade_event_type john r)
                      [grade1; grade2] |}).
Proof.
  apply (empty_previous_notifies_all (env := sample 3)
           {[ "john doe_grades" := VItems [] ]}
           {[ "john doe_grades" := VItems [grade1; grade2] ]}
           "john doe_grades" grade_compare_keys grade_event_type john
           (fun item => Ok item) (fun item => item)).
  - apply lookup_singleton_eq.
  - reflexivity.
  - apply lookup_singleton_eq.
  - repeat constructor.
Defined.

(** John had no grade before and the second of three grades is broken:
    the first is notified, then the warning, and the third is dropped. *)
Lemma broken_grade_cuts_emission :
  compare_data (env := sample 3)
    (Some {[ "john doe_grades" := VItems [] ]}) "john doe_grades"
    grade_compare_keys grade_event_type john strict_format
    (john_stored ([grade1] ++ broken_grade :: [grade2]))
  = (Ok tt,
     {| self_data := self_data (john_stored ([grade1] ++ broken_grade :: [grade2]));
        trace := trace (john_stored ([grade1] ++ broken_grade :: [grade2]))
                 ++ map (fun r => notification (env := sample 3)
                                    grade_event_type john r) [grade1]
                 ++ [comparison_warning
                       (Some {[ "john doe_grades" := VItems [] ]})
                       "john doe_grades" (OtherError "grade without subject")] |}).
Proof.
  apply (emission_stops_at_first_failure (env := sample 3)
           {[ "john doe_grades" := VItems [] ]}
           {[ "john doe_grades" := VItems ([grade1] ++ broken_grade :: [grade2]) ]}
           "john doe_grades" grade_compare_keys grade_event_type john
           strict_format (fun item => item) [grade1] [grade2] broken_grade).
  - apply lookup_singleton_eq.
  - reflexivity.
  - apply lookup_singleton_eq.
  - constructor; [by_compute | constructor].
  - by_compute.
Defined.

(** John had a grade before: the broken grade silences the new grade that
    stands before it. *)
Lemma broken_grade_silences_new_grade :
  compare_data (env := sample 3) (Some john_before) "john doe_grades"
    ("date" :: ["subject"; "grade_out_of"]) grade_event_type john strict_format
    (john_stored ([grade2] ++ broken_grade :: []))
  = (Ok tt,
     {| self_data := self_data (john_stored ([grade2] ++ broken_grade :: []));
        trace := trace (john_stored ([grade2] ++ broken_grade :: []))
                 ++ [comparison_warning (Some john_before) "john doe_grades"
                       (OtherError "grade without subject")] |}).
Proof.
  apply (refused_record_silences_the_diff (env := sample 3) john_before
           {[ "john doe_grades" := VItems ([grade2] ++ broken_grade :: []) ]}
           "john doe_grades" "date" ["subject"; "grade_out_of"]
           grade_event_type john strict_format (fun item => item)
           grade1 [] [grade2] [] broken_grade).
  - apply lookup_singleton_eq.
  - reflexivity.
  - apply lookup_singleton_eq.
  - solve_strictly_formatted.
  - solve_strictly_formatted.
  - by_compute.
Defined.

(** A second refresh of John's grades, the service answering the same:
    nothing is fired. *)
Lemma john_second_refresh_is_silent :
  ∃ new,
    trace (snd (_async_update_data (env := sample 3) 2024
                  (snd (_async_update_data (env := sample 3) 2024 first_tick))))
    = trace (snd (_async_update_data (env := sample 3) 2024 first_tick)) ++ new
    ∧ (∀ name ev, BusFire name ev ∉ new)
    ∧ (∀ previous_data key ex, comparison_warning previous_data key ex ∉ new).
Proof.
  apply (second_refresh_is_silent (env := sample 3) 2024
           {| token := "tok"; eleves := [john] |} first_tick (fun item => item)).
  - reflexivity.
  - intros e e' He%list_elem_of_singleton He'%list_elem_of_singleton _.
    congruence.
  - intros e grades He%list_elem_of_singleton Hok. subst e.
    change (Ok [grade1; grade2] = Ok grades) in Hok. injection Hok as <-.
    solve_well_formatted.
Defined.

(** The comparison keys of the grades in another order, one of them
    twice. *)
Lemma grade_keys_reordered :
  compare_data (env := sample 3) (Some john_before) "john doe_grades"
    grade_compare_keys grade_event_type john (fun item => Ok item)
    (john_stored [grade1; grade2])
  = compare_data (env := sample 3) (Some john_before) "john doe_grades"
      ["subject"; "grade_out_of"; "date"; "subject"] grade_event_type john
      (fun item => Ok item) (john_stored [grade1; grade2]).
Proof.
  apply (compare_keys_as_a_set (env := sample 3) john_before
           {[ "john doe_grades" := VItems [grade1; grade2] ]}
           "john doe_grades" grade_compare_keys
           ["subject"; "grade_out_of"; "date"; "subject"] grade_event_type
           john (fun item => Ok item) (fun item => item)
           [grade1] [grade1; grade2]).
  - intros k. unfold grade_compare_keys. rewrite !elem_of_cons, !elem_of_nil.
    tauto.
  - apply lookup_singleton_eq.
  - reflexivity.
  - apply lookup_singleton_eq.
  - solve_well_formatted.
  - solve_well_formatted.
Defined.

(** John's grades compared from two states that also hold other things. *)
Lemma other_entries_do_not_matter :
  ∃ emitted,
    compare_data (env := sample 3) (Some john_before) "john doe_grades"
      grade_compare_keys grade_event_type john (fun item => Ok item)
      (john_stored [grade1; grade2])
    = (Ok tt,
       {| self_data := self_data (john_stored [grade1; grade2]);
          trace := trace (john_stored [grade1; grade2]) ++ emitted |})
    ∧ compare_data (env := sample 3) (Some john_before) "john doe_grades"
        grade_compare_keys grade_event_type john (fun item => Ok item)
        {| self_data :=
             Some (<["john doe_grades" := VItems [grade1; grade2]]>
                     {[ "session" := VSession {| token := "tok"; eleves := [john] |} ]});
           trace := [LogError "earlier"] |}
      = (Ok tt,
         {| self_data :=
              Some (<["john doe_grades" := VItems [grade1; grade2]]>
                      {[ "session" := VSession {| token := "tok"; eleves := [john] |} ]});
            trace := [LogError "earlier"] ++ emitted |}).
Proof.
  apply (differ_reads_only_its_key (env := sample 3) (Some john_before)
           {[ "john doe_grades" := VItems [grade1; grade2] ]}
           (<["john doe_grades" := VItems [grade1; grade2]]>
              {[ "session" := VSession {| token := "tok"; eleves := [john] |} ]})).
  - reflexivity.
  - reflexivity.
  - by rewrite lookup_singleton_eq, lookup_insert_eq.
Defined.
